(** * QuantFlow: the order-book replica of the dashboard front end

    A shallow embedding of [frontend/hooks/useOrderbook.ts] (the replica
    engine: book, latency window, dropped counter, spread) and of the
    message buffer kept by [useWebSocket] (the ingestion buffer).

    Numbers.  A TypeScript [number] is modelled as an exact rational [Q].
    Every finite double is a rational, and on finite doubles [===], [!==]
    and the sign of a difference [a - b] agree with [Qeq] and with the sign
    of the rational difference, so lookups, filters and the comparator of
    [sort] behave in the model as they do in the program.  NaN, the
    infinities and the rounding of [+], [-] and [/] are outside the model. *)

From Stdlib Require Import List Bool ZArith QArith Qround Qabs Qminmax Lqa Lia.
From Stdlib Require Import Sorted Permutation SetoidList SetoidPermutation.
Import ListNotations.

Open Scope Q_scope.

Definition number := Q.

(** ** JavaScript primitives used by the hooks *)

Module JS.

(** [a === b] on numbers. *)
Definition strict_eq (a b : number) : bool := Qeq_bool a b.

(** [c > 0], the test [Array.prototype.sort] makes on a comparator's result. *)
Definition positive (c : number) : bool := negb (Qle_bool c 0).

Section Arrays.
Context {A : Type}.

(** [arr.findIndex(f)]: the first index whose element satisfies [f], or -1. *)
Fixpoint findIndex_from (f : A -> bool) (arr : list A) (k : Z) : Z :=
  match arr with
  | [] => (-1)%Z
  | x :: rest => if f x then k else findIndex_from f rest (k + 1)%Z
  end.

Definition findIndex (f : A -> bool) (arr : list A) : Z :=
  findIndex_from f arr 0%Z.

(** [arr[i] = v] for an index inside the array.  An index past the end
    would extend a JavaScript array; the hook only assigns at an index
    returned by [findIndex], which is inside the array (lemma
    [findIndex_from_spec]), so that case is left as the identity. *)
Fixpoint assign (i : nat) (v : A) (arr : list A) : list A :=
  match arr, i with
  | [], _ => []
  | _ :: rest, O => v :: rest
  | x :: rest, S j => x :: assign j v rest
  end.

(** [arr.push(v)]. *)
Definition push (v : A) (arr : list A) : list A := arr ++ [v].

(** [arr.shift()], keeping only the array that remains. *)
Definition shift (arr : list A) : list A := tl arr.

(** [arr.slice(0, n)]. *)
Definition slice_to (n : nat) (arr : list A) : list A := firstn n arr.

(** [arr.slice(-n)]: the last [n] elements, the whole array when shorter. *)
Definition slice_last (n : nat) (arr : list A) : list A :=
  skipn (length arr - n) arr.

(** [arr.sort(cmp)].  The sort of ECMAScript is stable, and for a
    consistent comparator its result is determined: the stable sorted
    arrangement.  It is computed here by insertion: an element goes past
    exactly the elements [y] it compares strictly greater than. *)
Fixpoint insert (cmp : A -> A -> number) (x : A) (sorted : list A) : list A :=
  match sorted with
  | [] => [x]
  | y :: rest =>
      if positive (cmp x y) then y :: insert cmp x rest else x :: y :: rest
  end.

Fixpoint sort (cmp : A -> A -> number) (arr : list A) : list A :=
  match arr with
  | [] => []
  | x :: rest => insert cmp x (sort cmp rest)
  end.
End Arrays.

(** [Math.round(x)]: the nearest integer, a tie going up. *)
Definition Math_round (x : number) : number := inject_Z (Qfloor (x + (1 # 2))).

End JS.

(** ** Message model *)

(** A level is the pair [[price, qty]]. *)
Definition Level := (number * number)%type.

Definition price (lv : Level) : number := fst lv.
Definition qty (lv : Level) : number := snd lv.

Record Book := mkBook {
  bids : list Level;
  asks : list Level;
  lastSeq : option number
}.

Record SnapshotMsg := mkSnapshot {
  snap_instrument_id : number;
  snap_timestamp : number;
  snap_bids : list Level;
  snap_asks : list Level;
  snap_gateway_ts : option number;
  snap_seq : option number
}.

Record IncrementalMsg := mkIncremental {
  inc_instrument_id : number;
  inc_timestamp : number;
  inc_is_bid : bool;
  inc_update_type : number;
  inc_level : Level;
  inc_gateway_ts : option number;
  inc_seq : option number
}.

Inductive WsMsg :=
| Snapshot (m : SnapshotMsg)
| Incremental (m : IncrementalMsg).

Definition timestamp (m : WsMsg) : number :=
  match m with
  | Snapshot s => snap_timestamp s
  | Incremental i => inc_timestamp i
  end.

(** ** useOrderbook *)

(** The state the hook keeps between renders: the [book] state cell and the
    two refs [latency] and [dropped]. *)
Record State := mkState {
  book : Book;
  latency : list number;
  dropped : number
}.

Definition initial : State :=
  {| book := {| bids := []; asks := []; lastSeq := None |};
     latency := [];
     dropped := 0 |}.

(** The comparator handed to [sort]: [b[0] - a[0]] for bids, [a[0] - b[0]]
    for asks. *)
Definition compareLevels (is_bid : bool) (a b : Level) : number :=
  if is_bid then fst b - fst a else fst a - fst b.

(** The two branches on [update_type], acting on the copy [arr] of a side. *)
Definition updateLevels (update_type price qty : number) (arr : list Level)
  : list Level :=
  if JS.strict_eq update_type 0 || JS.strict_eq update_type 2 then
    let i := JS.findIndex (fun lv => JS.strict_eq (fst lv) price) arr in
    if (0 <=? i)%Z then JS.assign (Z.to_nat i) (price, qty) arr
    else JS.push (price, qty) arr
  else if JS.strict_eq update_type 1 then
    filter (fun lv => negb (JS.strict_eq (fst lv) price)) arr
  else arr.

(** The updater passed to [setBook] for an incremental message. *)
Definition applyIncremental (last : IncrementalMsg) (prev : Book) : Book :=
  let '(price, qty) := inc_level last in
  let side := if inc_is_bid last then bids prev else asks prev in
  let arr := updateLevels (inc_update_type last) price qty side in
  let arr := JS.sort (compareLevels (inc_is_bid last)) arr in
  let arr := JS.slice_to 50 arr in
  if inc_is_bid last
  then {| bids := arr; asks := asks prev; lastSeq := lastSeq prev |}
  else {| bids := bids prev; asks := arr; lastSeq := lastSeq prev |}.

(** Lines 38-40: one latency sample per processed message. *)
Definition recordLatency (ms : number) (samples : list number) : list number :=
  let samples := JS.push ms samples in
  if (200 <? length samples)%nat then JS.shift samples else samples.

(** The effect body once [last] is known; [now] is the value of [Date.now()]. *)
Definition applyMessage (now : number) (last : WsMsg) (st : State) : State :=
  let samples := recordLatency (now - timestamp last) (latency st) in
  match last with
  | Snapshot s =>
      {| book := {| bids := snap_bids s; asks := snap_asks s; lastSeq := None |};
         latency := samples;
         dropped := dropped st |}
  | Incremental i =>
      {| book := applyIncremental i (book st);
         latency := samples;
         dropped := dropped st |}
  end.

(** [messages[messages.length - 1]]. *)
Fixpoint lastMessage (messages : list WsMsg) : option WsMsg :=
  match messages with
  | [] => None
  | [m] => Some m
  | _ :: rest => lastMessage rest
  end.

(** The effect of [useOrderbook], run with the current [messages]. *)
Definition useOrderbook_effect (now : number) (messages : list WsMsg)
  (st : State) : State :=
  match lastMessage messages with
  | None => st
  | Some last => applyMessage now last st
  end.

(** Messages applied one after the other, each with its own clock reading. *)
Definition run (trace : list (number * WsMsg)) (st : State) : State :=
  fold_left (fun s e => applyMessage (fst e) (snd e) s) trace st.

(** The memoised [spread]. *)
Record Spread := mkSpread {
  value : number;
  mid : number
}.

Definition spread (b : Book) : option Spread :=
  let bestBid := option_map fst (nth_error (bids b) 0) in
  let bestAsk := option_map fst (nth_error (asks b) 0) in
  match bestBid, bestAsk with
  | Some bestBid, Some bestAsk =>
      Some {| value := bestAsk - bestBid; mid := (bestAsk + bestBid) / 2 |}
  | _, _ => None
  end.

(** The memoised [latencyMs]. *)
Definition latencyMs (arr : list number) : number :=
  if (length arr =? 0)%nat then 0
  else JS.Math_round
         (fold_left Qplus arr 0 / inject_Z (Z.of_nat (length arr))).

(** ** useWebSocket: the message buffer *)

(** The updater passed to [setMessages] by [ws.onmessage]. *)
Definition onmessage (data : WsMsg) (prev : list WsMsg) : list WsMsg :=
  if (1000 <? length prev)%nat
  then JS.slice_last 800 prev ++ [data]
  else prev ++ [data].

(** ** The page: both hooks together *)

Record Page := mkPage {
  messages : list WsMsg;
  engine : State
}.

Inductive Event :=
| Receive (data : WsMsg)      (* the socket delivers a message *)
| Effect (now : number).      (* the effect of [useOrderbook] runs *)

Definition step (ev : Event) (pg : Page) : Page :=
  match ev with
  | Receive data =>
      {| messages := onmessage data (messages pg); engine := engine pg |}
  | Effect now =>
      {| messages := messages pg;
         engine := useOrderbook_effect now (messages pg) (engine pg) |}
  end.

Definition startPage : Page := {| messages := []; engine := initial |}.

Definition steps (evs : list Event) (pg : Page) : Page :=
  fold_left (fun p ev => step ev p) evs pg.

(** The shape of the find-then-assign-or-push idiom of [updateLevels]: the
    first element satisfying [f] is replaced by [v], and without one [v] goes
    to the end. *)
Fixpoint replaceFirst {A : Type} (f : A -> bool) (v : A) (arr : list A)
  : list A :=
  match arr with
  | [] => [v]
  | x :: rest => if f x then v :: rest else x :: replaceFirst f v rest
  end.

(** ** The vocabulary of the specification *)

(** Side order between two levels: bids by descending price, asks by
    ascending price; [inOrder] allows equal prices, [strictlyInOrder] does not. *)
Definition inOrder (is_bid : bool) (a b : Level) : Prop :=
  if is_bid then price b <= price a else price a <= price b.

Definition strictlyInOrder (is_bid : bool) (a b : Level) : Prop :=
  if is_bid then price b < price a else price a < price b.

Definition samePrice (a b : Level) : Prop := price a == price b.

(** A side sorted strictly in side order; no price then occurs twice. *)
Definition sideSorted (is_bid : bool) (levels : list Level) : Prop :=
  StronglySorted (strictlyInOrder is_bid) levels.

Definition weaklySorted (is_bid : bool) (levels : list Level) : Prop :=
  StronglySorted (inOrder is_bid) levels.

Definition distinctPrices (levels : list Level) : Prop :=
  ForallOrdPairs (fun a b => ~ samePrice a b) levels.

Definition hasPrice (p : number) (levels : list Level) : Prop :=
  Exists (fun lv => price lv == p) levels.

Definition depthLimit : nat := 50.

Definition side (is_bid : bool) (b : Book) : list Level :=
  if is_bid then bids b else asks b.

Module Spec.

(** Duplicates by price resolved last-wins: a level survives when no later
    level of the input carries its price. *)
Fixpoint lastWins (levels : list Level) : list Level :=
  match levels with
  | [] => []
  | lv :: rest =>
      if existsb (fun later => JS.strict_eq (price later) (price lv)) rest
      then lastWins rest
      else lv :: lastWins rest
  end.

(** [replaceAll] as section 4.1 words it: de-duplicate, sort into side
    order, truncate to [depthLimit]. *)
Definition replaceAll (is_bid : bool) (levels : list Level) : list Level :=
  firstn depthLimit (JS.sort (compareLevels is_bid) (lastWins levels)).

(** The arithmetic mean of a non-empty window. *)
Definition mean (samples : list number) : number :=
  fold_right Qplus 0 samples / inject_Z (Z.of_nat (length samples)).

End Spec.

(** The three kinds of incremental message the effect tells apart. *)
Definition isUpsert (m : IncrementalMsg) : Prop :=
  inc_update_type m == 0 \/ inc_update_type m == 2.

Definition isRemove (m : IncrementalMsg) : Prop := inc_update_type m == 1.

Definition isUnknown (m : IncrementalMsg) : Prop :=
  ~ inc_update_type m == 0 /\ ~ inc_update_type m == 1 /\
  ~ inc_update_type m == 2.

(** Conditions on the snapshots of a trace. *)
Definition snapshotsSorted (m : WsMsg) : Prop :=
  match m with
  | Snapshot s => sideSorted true (snap_bids s) /\ sideSorted false (snap_asks s)
  | Incremental _ => True
  end.

Definition snapshotsWithinDepth (m : WsMsg) : Prop :=
  match m with
  | Snapshot s =>
      (length (snap_bids s) <= depthLimit)%nat /\
      (length (snap_asks s) <= depthLimit)%nat
  | Incremental _ => True
  end.

(** The latency observed for each message of a trace, oldest first. *)
Definition observations (trace : list (number * WsMsg)) : list number :=
  map (fun e => fst e - timestamp (snd e)) trace.

(** ** Concrete messages used as test inputs *)

Definition levelAt (p q : Z) : Level := (inject_Z p, inject_Z q).

Definition snapshotOf (bs as_ : list Level) : WsMsg :=
  Snapshot {| snap_instrument_id := 1; snap_timestamp := 0;
              snap_bids := bs; snap_asks := as_;
              snap_gateway_ts := None; snap_seq := None |}.

Definition incrementalOf (is_bid : bool) (update_type : Z) (lv : Level)
  : IncrementalMsg :=
  {| inc_instrument_id := 1; inc_timestamp := 0; inc_is_bid := is_bid;
     inc_update_type := inject_Z update_type; inc_level := lv;
     inc_gateway_ts := None; inc_seq := None |}.

(** The snapshot of the scenario in section 8 of the specification. *)
Definition scenarioSnapshot : WsMsg :=
  snapshotOf [levelAt 100 5; levelAt 99 3] [levelAt 101 4; levelAt 102 2].

(** The same levels with the bids listed worst first. *)
Definition unsortedSnapshot : WsMsg :=
  snapshotOf [levelAt 99 3; levelAt 100 5] [levelAt 101 4; levelAt 102 2].

(** A snapshot listing price 100 twice on the bid side. *)
Definition duplicateSnapshot : WsMsg :=
  snapshotOf [levelAt 100 5; levelAt 100 7] [levelAt 101 4].

(** A well sorted snapshot that is 51 levels deep on both sides: bids 150
    down to 100, asks 151 up to 201. *)
Definition deepSnapshot : WsMsg :=
  snapshotOf
    (map (fun k => levelAt (Z.of_nat k) 1) (rev (seq 100 51)))
    (map (fun k => levelAt (Z.of_nat k) 1) (seq 151 51)).

(** The scenario of section 8: the snapshot, an upsert of bid 100 with
    quantity 7, then the removal of bid 100. *)
Definition scenarioTrace : list (number * WsMsg) :=
  [ (10, scenarioSnapshot);
    (20, Incremental (incrementalOf true 0 (levelAt 100 7)));
    (30, Incremental (incrementalOf true 1 (levelAt 100 0))) ].

(** A page whose buffer holds [n] pending messages. *)
Definition pendingPage (n : nat) : Page :=
  {| messages := repeat scenarioSnapshot n; engine := initial |}.

(** An incremental message with an [update_type] the effect does not know. *)
Definition unknownUpdate : IncrementalMsg :=
  incrementalOf true 7 (levelAt 100 1).

(** The book after the snapshot that lists its bids worst first. *)
Definition unsortedState : State := run [(0, unsortedSnapshot)] initial.

(** ** DepthChart *)

(** The side tag ["bid" | "ask"] of [buildSide]. *)
Inductive ChartSide := bid | ask.

(** [side === "bid"]. *)
Definition isBidSide (s : ChartSide) : bool :=
  match s with
  | bid => true
  | ask => false
  end.

(** One point [{ price, cumulative, side }] of a depth curve. *)
Record DepthPoint := mkPoint {
  pt_price : number;
  pt_cumulative : number;
  pt_side : ChartSide
}.

(** The [map] of [buildSide], which threads the running total
    [cumulative += qty] through the sorted levels. *)
Fixpoint cumulate (s : ChartSide) (cumulative : number) (sorted : list Level)
  : list DepthPoint :=
  match sorted with
  | [] => []
  | (p, q) :: rest =>
      let cumulative := cumulative + q in
      {| pt_price := p; pt_cumulative := cumulative; pt_side := s |}
      :: cumulate s cumulative rest
  end.

(** [buildSide(levels, side)]: sort a copy of the levels into side order,
    then accumulate the quantities from the best price outwards. *)
Definition buildSide (levels : list Level) (s : ChartSide) : list DepthPoint :=
  let sorted := JS.sort (compareLevels (isBidSide s)) levels in
  cumulate s 0 sorted.

Record ChartData := mkChartData {
  bidData : list DepthPoint;
  askData : list DepthPoint
}.

(** The two state cells of the component. *)
Record ChartState := mkChartState {
  paused : bool;
  frozenData : option ChartData
}.

Definition chartStart : ChartState := {| paused := false; frozenData := None |}.

(** The memoised [{ bidData, askData }] of one render with the props
    [bidLevels] and [askLevels], together with the state left by the call
    of [setFrozenData] it may make. *)
Definition chartMemo (st : ChartState) (bidLevels askLevels : list Level)
  : ChartData * ChartState :=
  match paused st, frozenData st with
  | true, Some frozen => (frozen, st)
  | _, _ =>
      let newData := {| bidData := buildSide bidLevels bid;
                        askData := buildSide askLevels ask |} in
      (newData,
       if negb (paused st)
       then {| paused := paused st; frozenData := Some newData |}
       else st)
  end.

(** The click handler of the Pause / Resume button. *)
Definition togglePause (st : ChartState) : ChartState :=
  {| paused := negb (paused st); frozenData := frozenData st |}.

(** Renders that follow one another with changing props; the data shown by
    each render is collected, the state is threaded through. *)
Fixpoint renders (st : ChartState) (props : list (list Level * list Level))
  : list ChartData * ChartState :=
  match props with
  | [] => ([], st)
  | (bidLevels, askLevels) :: rest =>
      let '(shown, st1) := chartMemo st bidLevels askLevels in
      let '(later, st2) := renders st1 rest in
      (shown :: later, st2)
  end.

(** [[...bidData.map(b => b.price), ...askData.map(a => a.price)]]. *)
Definition allPrices (d : ChartData) : list number :=
  map pt_price (bidData d) ++ map pt_price (askData d).

(** [Math.min(...xs)] and [Math.max(...xs)].  Without arguments they return
    [Infinity] and [-Infinity], which the number model does not have: that
    case is [None]. *)
Fixpoint Math_min (xs : list number) : option number :=
  match xs with
  | [] => None
  | x :: rest =>
      match Math_min rest with
      | None => Some x
      | Some m => Some (Qmin x m)
      end
  end.

Fixpoint Math_max (xs : list number) : option number :=
  match xs with
  | [] => None
  | x :: rest =>
      match Math_max rest with
      | None => Some x
      | Some m => Some (Qmax x m)
      end
  end.

(** The [domain] of the price axis: [[minPrice - padding, maxPrice + padding]]
    with [padding = (maxPrice - minPrice) * 0.12]. *)
Definition xDomain (d : ChartData) : option (number * number) :=
  match Math_min (allPrices d), Math_max (allPrices d) with
  | Some minPrice, Some maxPrice =>
      let padding := (maxPrice - minPrice) * (12 # 100) in
      Some (minPrice - padding, maxPrice + padding)
  | _, _ => None
  end.

(** The props the page hands to the chart:
    [bids={book.bids.slice(0, 10)} asks={book.asks.slice(0, 10)}]. *)
Definition chartProps (b : Book) : list Level * list Level :=
  (JS.slice_to 10 (bids b), JS.slice_to 10 (asks b)).

(** ** One render of [useOrderbook]

    [latencyMs] is memoised on [messages] and reads the [latency] ref while
    the component renders; the effect that pushes the sample of the newest
    message runs after that render.  The render it causes through [setBook]
    finds [messages] unchanged and reuses the memoised value.  So once a
    change of [messages] has settled, the hook holds the state left by the
    effect and returns the mean computed before the effect ran. *)
Record Rendered := mkRendered {
  rd_state : State;
  rd_latencyMs : number
}.

(** The mount: [messages] is empty, the memo reads the empty ref, the effect
    returns at once. *)
Definition mounted : Rendered :=
  {| rd_state := initial; rd_latencyMs := latencyMs (latency initial) |}.

(** A render with a new [messages] array, with [now] read by its effect. *)
Definition renderHook (now : number) (messages : list WsMsg) (h : Rendered)
  : Rendered :=
  let shown := latencyMs (latency (rd_state h)) in
  {| rd_state := useOrderbook_effect now messages (rd_state h);
     rd_latencyMs := shown |}.

(** The hook after a sequence of changes of [messages], oldest first. *)
Definition hookRun (frames : list (number * list WsMsg)) : Rendered :=
  fold_left (fun h f => renderHook (fst f) (snd f) h) frames mounted.

(** The latency observed by the effect of each frame, oldest first; a frame
    with an empty buffer records nothing. *)
Definition frameObservations (frames : list (number * list WsMsg))
  : list number :=
  flat_map (fun f => match lastMessage (snd f) with
                     | Some m => [fst f - timestamp m]
                     | None => []
                     end) frames.

(** The scenario of section 8 as the hook sees it: the buffer grows by one
    message per frame. *)
Definition scenarioFrames : list (number * list WsMsg) :=
  [ (10, map snd (firstn 1 scenarioTrace));
    (20, map snd (firstn 2 scenarioTrace));
    (30, map snd scenarioTrace) ].

(** ** Vocabulary for the further properties *)

(** The messages the socket has delivered, oldest first. *)
Fixpoint received (evs : list Event) : list WsMsg :=
  match evs with
  | [] => []
  | Receive data :: rest => data :: received rest
  | Effect _ :: rest => received rest
  end.

(** The sum of a list of numbers. *)
Definition total (xs : list number) : number := fold_right Qplus 0 xs.

(** Side order on the points of a depth curve. *)
Definition pointsInOrder (s : ChartSide) (a b : DepthPoint) : Prop :=
  if isBidSide s then pt_price b <= pt_price a else pt_price a <= pt_price b.

(** * Facts about the JavaScript primitives *)

#[global] Arguments JS.slice_to : simpl never.
#[global] Arguments JS.slice_last : simpl never.
#[global] Arguments updateLevels : simpl never.
#[global] Arguments applyIncremental : simpl never.

Lemma positive_true (c : number) : JS.positive c = true <-> 0 < c.
Proof.
  unfold JS.positive. rewrite negb_true_iff.
  split; intro H.
  - apply Qnot_le_lt. intro Hle. apply Qle_bool_iff in Hle. congruence.
  - destruct (Qle_bool c 0) eqn:E; [| reflexivity].
    apply Qle_bool_iff in E. exfalso. apply (Qlt_not_le _ _ H E).
Qed.

Lemma positive_false (c : number) : JS.positive c = false <-> c <= 0.
Proof.
  unfold JS.positive. rewrite negb_false_iff. apply Qle_bool_iff.
Qed.

Lemma strict_eq_true (a b : number) : JS.strict_eq a b = true <-> a == b.
Proof. apply Qeq_bool_iff. Qed.

Lemma strict_eq_false (a b : number) : JS.strict_eq a b = false <-> ~ a == b.
Proof.
  unfold JS.strict_eq. split; intro H.
  - intro E. apply Qeq_bool_iff in E. congruence.
  - destruct (Qeq_bool a b) eqn:E; [| reflexivity].
    apply Qeq_bool_iff in E. contradiction.
Qed.

Section FindIndex.
Context {A : Type}.
Variable f : A -> bool.

Lemma findIndex_from_spec (arr : list A) (k : Z) :
  (JS.findIndex_from f arr k = -1 /\ forallb (fun x => negb (f x)) arr = true)%Z
  \/ (k <= JS.findIndex_from f arr k < k + Z.of_nat (length arr))%Z.
Proof.
  revert k. induction arr as [| x rest IH]; intro k; simpl.
  - left. split; reflexivity.
  - destruct (f x); simpl.
    + right. lia.
    + destruct (IH (k + 1)%Z) as [[E F] | B].
      * left. split; assumption.
      * right. lia.
Qed.

Lemma findIndex_assign_push (v : A) (arr : list A) (k : Z) :
  (0 <= k)%Z ->
  (if (0 <=? JS.findIndex_from f arr k)%Z
   then JS.assign (Z.to_nat (JS.findIndex_from f arr k - k)) v arr
   else JS.push v arr) = replaceFirst f v arr.
Proof.
  revert k. induction arr as [| x rest IH]; intros k Hk; simpl.
  - reflexivity.
  - destruct (f x) eqn:Efx.
    + replace (0 <=? k)%Z with true by (symmetry; apply Z.leb_le; lia).
      rewrite Z.sub_diag. reflexivity.
    + specialize (IH (k + 1)%Z ltac:(lia)).
      destruct (findIndex_from_spec rest (k + 1)) as [[E _] | B].
      * rewrite E in *. simpl in *. unfold JS.push in *. simpl.
        rewrite IH. reflexivity.
      * assert (Hpos : (0 <=? JS.findIndex_from f rest (k + 1))%Z = true)
          by (apply Z.leb_le; lia).
        rewrite Hpos in *.
        replace (Z.to_nat (JS.findIndex_from f rest (k + 1) - k))
          with (S (Z.to_nat (JS.findIndex_from f rest (k + 1) - (k + 1))))
          by lia.
        simpl. rewrite IH. reflexivity.
Qed.

Lemma replaceFirst_length (v : A) (arr : list A) :
  (length (replaceFirst f v arr) <= S (length arr))%nat.
Proof.
  induction arr as [| x rest IH]; simpl; [lia |].
  destruct (f x); simpl; lia.
Qed.

Lemma replaceFirst_In (v : A) (arr : list A) : In v (replaceFirst f v arr).
Proof.
  induction arr as [| x rest IH]; simpl; [auto |].
  destruct (f x); simpl; auto.
Qed.

Lemma replaceFirst_Forall (P : A -> Prop) (v : A) (arr : list A) :
  P v -> Forall P arr -> Forall P (replaceFirst f v arr).
Proof.
  intros Hv H. induction H as [| x rest Hx Hrest IH]; simpl.
  - constructor; [assumption | constructor].
  - destruct (f x); constructor; assumption.
Qed.
End FindIndex.

Section Slices.
Context {A : Type}.

Lemma slice_to_length (n : nat) (arr : list A) :
  (length (JS.slice_to n arr) <= n)%nat.
Proof. apply firstn_le_length. Qed.

Lemma slice_to_short (n : nat) (arr : list A) :
  (length arr <= n)%nat -> JS.slice_to n arr = arr.
Proof. apply firstn_all2. Qed.

Lemma slice_last_length (n : nat) (arr : list A) :
  length (JS.slice_last n arr) = Nat.min n (length arr).
Proof. unfold JS.slice_last. rewrite length_skipn. lia. Qed.

Lemma slice_to_incl (n : nat) (arr : list A) (y : A) :
  In y (JS.slice_to n arr) -> In y arr.
Proof.
  unfold JS.slice_to. intro H.
  rewrite <- (firstn_skipn n arr). apply in_or_app. left. exact H.
Qed.

Lemma slice_to_sorted (R : A -> A -> Prop) (n : nat) (arr : list A) :
  StronglySorted R arr -> StronglySorted R (JS.slice_to n arr).
Proof.
  intro H. revert n.
  induction H as [| x rest Hrest IH Hx]; intros [| n]; simpl;
    try constructor.
  - apply IH.
  - rewrite Forall_forall in *. intros y Hy. apply Hx.
    eapply slice_to_incl; eassumption.
Qed.

Lemma filter_sorted (R : A -> A -> Prop) (keep : A -> bool) (arr : list A) :
  StronglySorted R arr -> StronglySorted R (filter keep arr).
Proof.
  induction 1 as [| x rest Hrest IH Hx]; simpl; [constructor |].
  destruct (keep x); [| assumption].
  constructor; [assumption |].
  rewrite Forall_forall in *. intros y Hy. apply Hx.
  apply filter_In in Hy. tauto.
Qed.
End Slices.

(** * The model of [Array.prototype.sort] does sort

    For a comparator that is total and transitive, [JS.sort] returns a
    permutation of its input in which no element compares greater than a
    later one, and it leaves an array in that state untouched. *)

Section SortFacts.
Context {A : Type}.
Variable cmp : A -> A -> number.

Local Abbreviation notAfter := (fun a b => cmp a b <= 0).

Hypothesis cmp_total : forall a b, cmp a b <= 0 \/ cmp b a <= 0.
Hypothesis cmp_trans :
  forall a b c, cmp a b <= 0 -> cmp b c <= 0 -> cmp a c <= 0.

Lemma insert_perm (x : A) (l : list A) :
  Permutation (JS.insert cmp x l) (x :: l).
Proof.
  induction l as [| y rest IH]; simpl.
  - apply Permutation_refl.
  - destruct (JS.positive (cmp x y)).
    + eapply perm_trans; [apply perm_skip, IH | apply perm_swap].
    + apply Permutation_refl.
Qed.

Lemma sort_perm (l : list A) : Permutation (JS.sort cmp l) l.
Proof.
  induction l as [| x rest IH]; simpl.
  - constructor.
  - eapply perm_trans; [apply insert_perm | apply perm_skip, IH].
Qed.

Lemma sort_length (l : list A) : length (JS.sort cmp l) = length l.
Proof. apply Permutation_length, sort_perm. Qed.

Lemma insert_sorted (x : A) (l : list A) :
  StronglySorted notAfter l -> StronglySorted notAfter (JS.insert cmp x l).
Proof.
  induction 1 as [| y rest Hrest IH Hy]; simpl.
  - constructor; constructor.
  - destruct (JS.positive (cmp x y)) eqn:E.
    + constructor; [exact IH |].
      apply (Permutation_Forall (Permutation_sym (insert_perm x rest))).
      constructor; [| exact Hy].
      apply positive_true in E.
      destruct (cmp_total y x) as [H | H]; [exact H |].
      exfalso. apply (Qlt_not_le _ _ E H).
    + apply positive_false in E.
      constructor; [constructor; assumption |].
      constructor; [exact E |].
      eapply Forall_impl; [| exact Hy].
      intros z Hz. simpl in *. eapply cmp_trans; eassumption.
Qed.

Lemma sort_sorted (l : list A) : StronglySorted notAfter (JS.sort cmp l).
Proof.
  induction l as [| x rest IH]; simpl.
  - constructor.
  - apply insert_sorted, IH.
Qed.

Lemma insert_first (x : A) (l : list A) :
  Forall (notAfter x) l -> JS.insert cmp x l = x :: l.
Proof.
  destruct 1 as [| y rest Hy _]; simpl; [reflexivity |].
  apply positive_false in Hy. rewrite Hy. reflexivity.
Qed.

Lemma sort_id (l : list A) :
  StronglySorted notAfter l -> JS.sort cmp l = l.
Proof.
  induction 1 as [| x rest Hrest IH Hx]; simpl; [reflexivity |].
  rewrite IH. apply insert_first, Hx.
Qed.
End SortFacts.

(** * Sides of the book under the comparator of the hook *)

Lemma compareLevels_inOrder (is_bid : bool) (a b : Level) :
  compareLevels is_bid a b <= 0 <-> inOrder is_bid a b.
Proof.
  unfold compareLevels, inOrder, price. destruct is_bid; split; intro H; lra.
Qed.

Lemma compareLevels_total (is_bid : bool) (a b : Level) :
  compareLevels is_bid a b <= 0 \/ compareLevels is_bid b a <= 0.
Proof.
  unfold compareLevels. destruct is_bid.
  - destruct (Qlt_le_dec (fst a) (fst b)); [right | left]; lra.
  - destruct (Qlt_le_dec (fst b) (fst a)); [right | left]; lra.
Qed.

Lemma compareLevels_trans (is_bid : bool) (a b c : Level) :
  compareLevels is_bid a b <= 0 -> compareLevels is_bid b c <= 0 ->
  compareLevels is_bid a c <= 0.
Proof. unfold compareLevels. destruct is_bid; intros; lra. Qed.

Lemma strictlyInOrder_trans (is_bid : bool) (a b c : Level) :
  strictlyInOrder is_bid a b -> strictlyInOrder is_bid b c ->
  strictlyInOrder is_bid a c.
Proof. unfold strictlyInOrder. destruct is_bid; intros; lra. Qed.

Lemma strictlyInOrder_inOrder (is_bid : bool) (a b : Level) :
  strictlyInOrder is_bid a b -> inOrder is_bid a b.
Proof. unfold strictlyInOrder, inOrder. destruct is_bid; intros; lra. Qed.

Lemma strictlyInOrder_differ (is_bid : bool) (a b : Level) :
  strictlyInOrder is_bid a b -> ~ samePrice a b.
Proof.
  unfold strictlyInOrder, samePrice. destruct is_bid; intros H E; lra.
Qed.

Lemma inOrder_differ_strict (is_bid : bool) (a b : Level) :
  inOrder is_bid a b -> ~ samePrice a b -> strictlyInOrder is_bid a b.
Proof.
  unfold strictlyInOrder, inOrder, samePrice.
  destruct is_bid; intros H N.
  - destruct (Qlt_le_dec (price b) (price a)); [assumption |].
    exfalso. apply N. lra.
  - destruct (Qlt_le_dec (price a) (price b)); [assumption |].
    exfalso. apply N. lra.
Qed.

Lemma after_strict (is_bid : bool) (x y : Level) :
  0 < compareLevels is_bid x y -> strictlyInOrder is_bid y x.
Proof.
  unfold compareLevels, strictlyInOrder, price. destruct is_bid; intros; lra.
Qed.

Lemma sideSorted_weaklySorted (is_bid : bool) (l : list Level) :
  sideSorted is_bid l -> weaklySorted is_bid l.
Proof.
  induction 1 as [| x rest Hrest IH Hx]; constructor; [exact IH |].
  eapply Forall_impl; [| exact Hx].
  intros y. apply strictlyInOrder_inOrder.
Qed.

Lemma sideSorted_distinctPrices (is_bid : bool) (l : list Level) :
  sideSorted is_bid l -> distinctPrices l.
Proof.
  induction 1 as [| x rest Hrest IH Hx]; constructor; [| exact IH].
  eapply Forall_impl; [| exact Hx].
  intros y. apply strictlyInOrder_differ.
Qed.

Lemma weaklySorted_notAfter (is_bid : bool) (l : list Level) :
  weaklySorted is_bid l ->
  StronglySorted (fun a b => compareLevels is_bid a b <= 0) l.
Proof.
  induction 1 as [| x rest Hrest IH Hx]; constructor; [exact IH |].
  eapply Forall_impl; [| exact Hx].
  intros y Hy. apply compareLevels_inOrder, Hy.
Qed.

(** Sorting a side that is already in side order changes nothing. *)
Lemma sort_weaklySorted_id (is_bid : bool) (l : list Level) :
  weaklySorted is_bid l -> JS.sort (compareLevels is_bid) l = l.
Proof. intro H. apply sort_id, weaklySorted_notAfter, H. Qed.

Lemma sort_weaklySorted (is_bid : bool) (l : list Level) :
  weaklySorted is_bid (JS.sort (compareLevels is_bid) l).
Proof.
  pose proof (sort_sorted (compareLevels is_bid)
                (compareLevels_total is_bid) (compareLevels_trans is_bid) l)
    as H.
  unfold weaklySorted.
  induction H as [| x rest Hrest IH Hx]; constructor; [exact IH |].
  eapply Forall_impl; [| exact Hx].
  intros y Hy. apply compareLevels_inOrder, Hy.
Qed.

Lemma insert_sideSorted (is_bid : bool) (x : Level) (l : list Level) :
  sideSorted is_bid l ->
  Forall (fun y => ~ samePrice x y) l ->
  sideSorted is_bid (JS.insert (compareLevels is_bid) x l).
Proof.
  induction 1 as [| y rest Hrest IH Hy]; intro Hd; simpl.
  - constructor; constructor.
  - inversion Hd as [| ? ? Hxy Hdrest]; subst.
    destruct (JS.positive (compareLevels is_bid x y)) eqn:E.
    + constructor; [apply IH, Hdrest |].
      apply (Permutation_Forall (Permutation_sym (insert_perm _ x rest))).
      constructor; [| exact Hy].
      apply after_strict, positive_true, E.
    + apply positive_false, compareLevels_inOrder in E.
      assert (Sxy : strictlyInOrder is_bid x y)
        by (apply inOrder_differ_strict; assumption).
      constructor; [constructor; assumption |].
      constructor; [exact Sxy |].
      eapply Forall_impl; [| exact Hy].
      intros z Hz. eapply strictlyInOrder_trans; eassumption.
Qed.

(** Sorting levels whose prices are pairwise different yields a strictly
    sorted side. *)
Lemma sort_distinct_sideSorted (is_bid : bool) (l : list Level) :
  distinctPrices l -> sideSorted is_bid (JS.sort (compareLevels is_bid) l).
Proof.
  induction 1 as [| x rest Hx Hrest IH]; simpl.
  - constructor.
  - apply insert_sideSorted; [exact IH |].
    apply (Permutation_Forall (Permutation_sym (sort_perm _ rest))).
    exact Hx.
Qed.

Lemma samePrice_sym (a b : Level) : samePrice a b -> samePrice b a.
Proof. unfold samePrice. intro H. symmetry. exact H. Qed.

Lemma replaceFirst_distinctPrices (p q : number) (l : list Level) :
  distinctPrices l ->
  distinctPrices
    (replaceFirst (fun lv => JS.strict_eq (fst lv) p) (p, q) l).
Proof.
  induction 1 as [| x rest Hx Hrest IH]; simpl.
  - constructor; constructor.
  - destruct (JS.strict_eq (fst x) p) eqn:E.
    + apply strict_eq_true in E.
      constructor; [| exact Hrest].
      eapply Forall_impl; [| exact Hx].
      intros y Hy S. apply Hy. unfold samePrice, price in *. simpl in S.
      rewrite E. exact S.
    + apply strict_eq_false in E.
      constructor; [| exact IH].
      apply replaceFirst_Forall; [| exact Hx].
      unfold samePrice, price. simpl. exact E.
Qed.

(** * One message at a time *)

Lemma updateLevels_upsert (ut p q : number) (arr : list Level) :
  ut == 0 \/ ut == 2 ->
  updateLevels ut p q arr
  = replaceFirst (fun lv => JS.strict_eq (fst lv) p) (p, q) arr.
Proof.
  intro H. unfold updateLevels, JS.findIndex.
  assert (E : JS.strict_eq ut 0 || JS.strict_eq ut 2 = true).
  { apply orb_true_iff. destruct H as [H | H]; [left | right];
      apply strict_eq_true; exact H. }
  rewrite E.
  pose proof (findIndex_assign_push (fun lv : Level => JS.strict_eq (fst lv) p)
                (p, q) arr 0 ltac:(lia)) as F.
  rewrite Z.sub_0_r in F. exact F.
Qed.

Lemma updateLevels_remove (ut p q : number) (arr : list Level) :
  ut == 1 ->
  updateLevels ut p q arr
  = filter (fun lv => negb (JS.strict_eq (fst lv) p)) arr.
Proof.
  intro H. unfold updateLevels.
  assert (E0 : JS.strict_eq ut 0 = false) by (apply strict_eq_false; lra).
  assert (E2 : JS.strict_eq ut 2 = false) by (apply strict_eq_false; lra).
  assert (E1 : JS.strict_eq ut 1 = true) by (apply strict_eq_true; exact H).
  rewrite E0, E2, E1. reflexivity.
Qed.

Lemma updateLevels_unknown (ut p q : number) (arr : list Level) :
  ~ ut == 0 -> ~ ut == 1 -> ~ ut == 2 -> updateLevels ut p q arr = arr.
Proof.
  intros H0 H1 H2. unfold updateLevels.
  apply strict_eq_false in H0, H1, H2. rewrite H0, H1, H2. reflexivity.
Qed.

(** Whatever [update_type] is, one of the three branches is taken. *)
Lemma updateLevels_cases (ut p q : number) (arr : list Level) :
  updateLevels ut p q arr
  = replaceFirst (fun lv => JS.strict_eq (fst lv) p) (p, q) arr
  \/ updateLevels ut p q arr
     = filter (fun lv => negb (JS.strict_eq (fst lv) p)) arr
  \/ updateLevels ut p q arr = arr.
Proof.
  destruct (Qeq_dec ut 0) as [H0 | H0];
    [left; apply updateLevels_upsert; auto |].
  destruct (Qeq_dec ut 2) as [H2 | H2];
    [left; apply updateLevels_upsert; auto |].
  destruct (Qeq_dec ut 1) as [H1 | H1].
  - right; left. apply updateLevels_remove, H1.
  - right; right. apply updateLevels_unknown; assumption.
Qed.

Lemma updateLevels_sideSorted (is_bid : bool) (ut p q : number)
  (arr : list Level) :
  sideSorted is_bid arr ->
  sideSorted is_bid
    (JS.sort (compareLevels is_bid) (updateLevels ut p q arr)).
Proof.
  intro H.
  destruct (updateLevels_cases ut p q arr) as [E | [E | E]]; rewrite E.
  - apply sort_distinct_sideSorted, replaceFirst_distinctPrices.
    eapply sideSorted_distinctPrices, H.
  - assert (S : sideSorted is_bid
                  (filter (fun lv => negb (JS.strict_eq (fst lv) p)) arr))
      by (apply filter_sorted, H).
    rewrite sort_weaklySorted_id; [exact S |].
    apply sideSorted_weaklySorted, S.
  - rewrite sort_weaklySorted_id; [exact H |].
    apply sideSorted_weaklySorted, H.
Qed.

(** The side named by an incremental message after the update, and the
    other side. *)
Lemma applyIncremental_side (m : IncrementalMsg) (prev : Book) :
  side (inc_is_bid m) (applyIncremental m prev)
  = JS.slice_to 50
      (JS.sort (compareLevels (inc_is_bid m))
         (updateLevels (inc_update_type m) (price (inc_level m))
            (qty (inc_level m)) (side (inc_is_bid m) prev))).
Proof.
  unfold applyIncremental, side, price, qty.
  destruct (inc_level m) as [p q]. destruct (inc_is_bid m); reflexivity.
Qed.

Lemma applyIncremental_other (m : IncrementalMsg) (prev : Book) :
  side (negb (inc_is_bid m)) (applyIncremental m prev)
  = side (negb (inc_is_bid m)) prev.
Proof.
  unfold applyIncremental, side.
  destruct (inc_level m) as [p q]. destruct (inc_is_bid m); reflexivity.
Qed.

Lemma applyIncremental_lastSeq (m : IncrementalMsg) (prev : Book) :
  lastSeq (applyIncremental m prev) = lastSeq prev.
Proof.
  unfold applyIncremental.
  destruct (inc_level m) as [p q]. destruct (inc_is_bid m); reflexivity.
Qed.

(** A book is determined by its two sides and [lastSeq]. *)
Lemma book_ext (b1 b2 : Book) (is_bid : bool) :
  side is_bid b1 = side is_bid b2 ->
  side (negb is_bid) b1 = side (negb is_bid) b2 ->
  lastSeq b1 = lastSeq b2 -> b1 = b2.
Proof.
  destruct b1, b2. unfold side. destruct is_bid; simpl; intros; subst;
    reflexivity.
Qed.

(** A side in side order and within the depth limit survives the
    sort-and-slice of the updater. *)
Lemma sort_slice_id (is_bid : bool) (arr : list Level) :
  weaklySorted is_bid arr -> (length arr <= 50)%nat ->
  JS.slice_to 50 (JS.sort (compareLevels is_bid) arr) = arr.
Proof.
  intros S L. rewrite sort_weaklySorted_id by exact S.
  apply slice_to_short, L.
Qed.

(** An invariant of [applyMessage] holds along every trace. *)
Lemma run_invariant (P : State -> Prop) (Q : WsMsg -> Prop) :
  (forall now m st, Q m -> P st -> P (applyMessage now m st)) ->
  forall trace st,
    Forall (fun e => Q (snd e)) trace -> P st -> P (run trace st).
Proof.
  intros Hstep trace. unfold run.
  induction trace as [| e rest IH]; intros st HQ HP; simpl.
  - exact HP.
  - inversion HQ; subst. apply IH; [assumption |].
    apply Hstep; assumption.
Qed.

Lemma book_incremental (now : number) (m : IncrementalMsg) (st : State) :
  book (applyMessage now (Incremental m) st) = applyIncremental m (book st).
Proof. reflexivity. Qed.

Lemma dropped_applyMessage (now : number) (m : WsMsg) (st : State) :
  dropped (applyMessage now m st) = dropped st.
Proof. destruct m; reflexivity. Qed.

(** * The claims *)

(** C10.  An incremental message touches only the side it names: the level
    sequence of the opposite side (asks for a bid message, bids for an ask
    message) is exactly what it was, and so is [lastSeq]. *)
Theorem incremental_frame (now : number) (m : IncrementalMsg) (st : State) :
  side (negb (inc_is_bid m)) (book (applyMessage now (Incremental m) st))
  = side (negb (inc_is_bid m)) (book st)
  /\ lastSeq (book (applyMessage now (Incremental m) st)) = lastSeq (book st).
Proof.
  simpl. split.
  - apply applyIncremental_other.
  - apply applyIncremental_lastSeq.
Qed.

(** C7.  The derived view: with [bestBid] and [bestAsk] the first levels of
    the two sides, [spread] is [bestAsk.price - bestBid.price] and the mid
    price is [(bestAsk.price + bestBid.price) / 2]; both are absent exactly
    when a side is empty. *)
Theorem spread_derived (b : Book) :
  spread b
  = match bids b, asks b with
    | bestBid :: _, bestAsk :: _ =>
        Some {| value := price bestAsk - price bestBid;
                mid := (price bestAsk + price bestBid) / 2 |}
    | _, _ => None
    end
  /\ (spread b = None <-> bids b = [] \/ asks b = []).
Proof.
  unfold spread, price. destruct (bids b) as [| bb bs], (asks b) as [| ba bas];
    simpl; (split; [reflexivity |]); split; intro H;
    try reflexivity; try discriminate; auto.
  destruct H; discriminate.
Qed.

(** ** Ordering and depth along a trace *)

Lemma applyMessage_keeps_sorted (now : number) (m : WsMsg) (st : State) :
  snapshotsSorted m ->
  sideSorted true (bids (book st)) /\ sideSorted false (asks (book st)) ->
  sideSorted true (bids (book (applyMessage now m st)))
  /\ sideSorted false (asks (book (applyMessage now m st))).
Proof.
  intros Hm [Hb Ha]. destruct m as [s | i]; simpl.
  - exact Hm.
  - pose proof (applyIncremental_side i (book st)) as Hside.
    pose proof (applyIncremental_other i (book st)) as Hother.
    destruct (inc_is_bid i); cbv [side negb] in Hside, Hother;
      rewrite Hside, Hother; (split; [| try exact Ha]); try exact Hb;
      apply slice_to_sorted, updateLevels_sideSorted; assumption.
Qed.

Lemma applyMessage_keeps_depth (now : number) (m : WsMsg) (st : State) :
  snapshotsWithinDepth m ->
  (length (bids (book st)) <= depthLimit)%nat
  /\ (length (asks (book st)) <= depthLimit)%nat ->
  (length (bids (book (applyMessage now m st))) <= depthLimit)%nat
  /\ (length (asks (book (applyMessage now m st))) <= depthLimit)%nat.
Proof.
  intros Hm [Hb Ha]. destruct m as [s | i]; simpl.
  - exact Hm.
  - pose proof (applyIncremental_side i (book st)) as Hside.
    pose proof (applyIncremental_other i (book st)) as Hother.
    destruct (inc_is_bid i); cbv [side negb] in Hside, Hother;
      rewrite Hside, Hother; (split; [| try exact Ha]); try exact Hb;
      apply slice_to_length.
Qed.

(** C2, as the specification states it, fails: a snapshot is installed as
    it arrives, so after the snapshot listing bid 99 before bid 100 the bid
    side is not in descending order. *)
Lemma ordering_invariant_counterexample :
  ~ sideSorted true (bids (book (run [(0, unsortedSnapshot)] initial))).
Proof.
  simpl. intro H. inversion H as [| ? ? _ Hhd]; subst.
  inversion Hhd as [| ? ? Hlt _]; subst.
  unfold strictlyInOrder, price, levelAt in Hlt. simpl in Hlt.
  revert Hlt. apply Qle_not_lt. unfold Qle. simpl. lia.
Qed.

(** C2, amended.  Along every trace from the empty book whose snapshots
    list their bids strictly descending and their asks strictly ascending
    by price, after each message the bids are strictly descending, the asks
    strictly ascending, and no side lists a price twice. *)
Theorem ordering_invariant (trace : list (number * WsMsg)) :
  Forall (fun e => snapshotsSorted (snd e)) trace ->
  sideSorted true (bids (book (run trace initial)))
  /\ sideSorted false (asks (book (run trace initial)))
  /\ distinctPrices (bids (book (run trace initial)))
  /\ distinctPrices (asks (book (run trace initial))).
Proof.
  intro Htrace.
  assert (H : sideSorted true (bids (book (run trace initial)))
              /\ sideSorted false (asks (book (run trace initial)))).
  { apply (run_invariant
             (fun st => sideSorted true (bids (book st))
                        /\ sideSorted false (asks (book st)))
             snapshotsSorted).
    - intros now m st. apply applyMessage_keeps_sorted.
    - exact Htrace.
    - split; constructor. }
  destruct H as [Hb Ha]. repeat split; try assumption.
  - eapply sideSorted_distinctPrices, Hb.
  - eapply sideSorted_distinctPrices, Ha.
Qed.

Lemma ordering_invariant_witness :
  sideSorted true (bids (book (run scenarioTrace initial)))
  /\ sideSorted false (asks (book (run scenarioTrace initial)))
  /\ distinctPrices (bids (book (run scenarioTrace initial)))
  /\ distinctPrices (asks (book (run scenarioTrace initial))).
Proof.
  apply ordering_invariant.
  repeat constructor; unfold strictlyInOrder, price; simpl;
    unfold Qlt; simpl; lia.
Defined.

(** C3, as the specification states it, fails: the snapshot with 51 levels
    a side leaves 51 levels on the bid side. *)
Lemma depth_bound_counterexample :
  ~ (length (bids (book (run [(0%Q, deepSnapshot)] initial))) <= depthLimit)%nat.
Proof. vm_compute. lia. Qed.

(** C3, amended.  Along every trace from the empty book whose snapshots
    carry at most [depthLimit] (50) levels a side, the bid side and the ask
    side each hold at most 50 levels after each message. *)
Theorem depth_bound (trace : list (number * WsMsg)) :
  Forall (fun e => snapshotsWithinDepth (snd e)) trace ->
  (length (bids (book (run trace initial))) <= depthLimit)%nat
  /\ (length (asks (book (run trace initial))) <= depthLimit)%nat.
Proof.
  intro Htrace.
  apply (run_invariant
           (fun st => (length (bids (book st)) <= depthLimit)%nat
                      /\ (length (asks (book st)) <= depthLimit)%nat)
           snapshotsWithinDepth).
  - intros now m st. apply applyMessage_keeps_depth.
  - exact Htrace.
  - unfold depthLimit. simpl. lia.
Qed.

Lemma depth_bound_witness :
  (length (bids (book (run scenarioTrace initial))) <= depthLimit)%nat
  /\ (length (asks (book (run scenarioTrace initial))) <= depthLimit)%nat.
Proof.
  apply depth_bound.
  repeat constructor; unfold depthLimit; simpl; lia.
Defined.

(** ** Snapshots *)

Lemma lastWins_incl (l : list Level) (lv : Level) :
  In lv (Spec.lastWins l) -> In lv l.
Proof.
  induction l as [| x rest IH]; simpl; [tauto |].
  destruct (existsb _ rest); simpl; intuition.
Qed.

Lemma existsb_samePrice_false (x : Level) (rest : list Level) :
  existsb (fun later => JS.strict_eq (price later) (price x)) rest = false
  <-> Forall (fun y => ~ samePrice x y) rest.
Proof.
  induction rest as [| y rest IH]; simpl.
  - split; [constructor | reflexivity].
  - rewrite orb_false_iff, strict_eq_false, IH. unfold samePrice.
    split.
    + intros [N F]. constructor; [| exact F].
      intro E. apply N. symmetry. exact E.
    + intro F. inversion F as [| ? ? N F']; subst. split; [| exact F'].
      intro E. apply N. symmetry. exact E.
Qed.

Lemma lastWins_distinctPrices (l : list Level) :
  distinctPrices (Spec.lastWins l).
Proof.
  induction l as [| x rest IH]; simpl; [constructor |].
  destruct (existsb _ rest) eqn:E; [exact IH |].
  constructor; [| exact IH].
  apply existsb_samePrice_false in E.
  rewrite Forall_forall in *. intros y Hy. apply E, lastWins_incl, Hy.
Qed.

Lemma lastWins_id (l : list Level) :
  distinctPrices l -> Spec.lastWins l = l.
Proof.
  induction 1 as [| x rest Hx Hrest IH]; simpl; [reflexivity |].
  apply existsb_samePrice_false in Hx. rewrite Hx, IH. reflexivity.
Qed.

(** What [replaceAll] of the specification returns is always a strictly
    sorted side within the depth limit, and it returns its input exactly
    when the input already is one. *)
Lemma replaceAll_fixpoint (is_bid : bool) (l : list Level) :
  l = Spec.replaceAll is_bid l
  <-> sideSorted is_bid l /\ (length l <= depthLimit)%nat.
Proof.
  unfold Spec.replaceAll. split.
  - intro E. rewrite E. split.
    + apply (slice_to_sorted _ depthLimit).
      apply sort_distinct_sideSorted, lastWins_distinctPrices.
    + apply firstn_le_length.
  - intros [S L].
    rewrite lastWins_id by (eapply sideSorted_distinctPrices, S).
    rewrite sort_weaklySorted_id by (apply sideSorted_weaklySorted, S).
    symmetry. apply firstn_all2, L.
Qed.

(** C1, as the specification states it, fails on each of its three counts:
    the bids of a snapshot stay in the order of the message, a price listed
    twice stays twice, and a side of 51 levels stays 51 levels deep; none of
    the three results is what [replaceAll] of the specification returns. *)
Lemma snapshot_replaceAll_counterexample :
  (let b := book (applyMessage 0 unsortedSnapshot initial) in
   bids b = [levelAt 99 3; levelAt 100 5]
   /\ bids b <> Spec.replaceAll true [levelAt 99 3; levelAt 100 5])
  /\ (let b := book (applyMessage 0 duplicateSnapshot initial) in
      bids b = [levelAt 100 5; levelAt 100 7]
      /\ bids b <> Spec.replaceAll true [levelAt 100 5; levelAt 100 7])
  /\ (let b := book (applyMessage 0 deepSnapshot initial) in
      length (bids b) = 51%nat).
Proof.
  repeat split; vm_compute; try reflexivity; intro H; discriminate H.
Qed.

(** C1, amended.  A snapshot replaces both sides wholesale with the levels
    of the message, exactly as listed: nothing is sorted, de-duplicated or
    truncated.  The result is what the specification's [replaceAll] would
    give precisely when the listed side is already strictly sorted in side
    order and at most [depthLimit] (50) levels deep. *)
Theorem snapshot_replaces_wholesale (now : number) (s : SnapshotMsg)
  (st : State) :
  bids (book (applyMessage now (Snapshot s) st)) = snap_bids s
  /\ asks (book (applyMessage now (Snapshot s) st)) = snap_asks s
  /\ (bids (book (applyMessage now (Snapshot s) st))
      = Spec.replaceAll true (snap_bids s)
      <-> sideSorted true (snap_bids s)
          /\ (length (snap_bids s) <= depthLimit)%nat)
  /\ (asks (book (applyMessage now (Snapshot s) st))
      = Spec.replaceAll false (snap_asks s)
      <-> sideSorted false (snap_asks s)
          /\ (length (snap_asks s) <= depthLimit)%nat).
Proof.
  simpl. split; [reflexivity |]. split; [reflexivity |].
  split; apply replaceAll_fixpoint.
Qed.

(** ** The dropped counter and the message buffer *)

(** Nothing on the page writes the [dropped] ref. *)
Lemma dropped_step (ev : Event) (pg : Page) :
  dropped (engine (step ev pg)) = dropped (engine pg).
Proof.
  destruct ev as [data | now]; simpl; [reflexivity |].
  unfold useOrderbook_effect. destruct (lastMessage (messages pg)).
  - apply dropped_applyMessage.
  - reflexivity.
Qed.

Lemma dropped_steps (evs : list Event) (pg : Page) :
  dropped (engine (steps evs pg)) = dropped (engine pg).
Proof.
  unfold steps. revert pg.
  induction evs as [| ev rest IH]; intro pg; simpl; [reflexivity |].
  rewrite IH. apply dropped_step.
Qed.

(** X16.  The [dropped] counter that [useOrderbook] returns is never written:
    on every page reached from the start, through any deliveries and effect
    runs, it still reads 0. *)
Lemma dropped_always_zero (evs : list Event) :
  dropped (engine (steps evs startPage)) = 0.
Proof. rewrite dropped_steps. reflexivity. Qed.

(** C4, as the specification states it, fails: a push onto 1000 pending
    messages leaves 1001 pending, not 801, and [dropped] does not move. *)
Lemma buffer_overflow_counterexample :
  length (messages (step (Receive scenarioSnapshot) (pendingPage 1000)))
  = 1001%nat
  /\ length (messages (step (Receive scenarioSnapshot) (pendingPage 1000)))
     <> 801%nat
  /\ ~ dropped (engine (step (Receive scenarioSnapshot) (pendingPage 1000)))
       == dropped (engine (pendingPage 1000)) + 200.
Proof.
  split; [vm_compute; reflexivity |].
  split; [vm_compute; intro H; discriminate H |].
  rewrite dropped_step. simpl. intro H. discriminate H.
Qed.

(** C4, amended.  The buffer compacts when it already holds more than 1000
    messages: it then keeps the most recent 800 and appends the new one, so
    801 are pending (a push onto 1001 pending evicts the oldest 201).  With
    1000 or fewer pending the new message is only appended, so a push onto
    1000 pending leaves 1001.  A push never touches the state of the
    engine: [dropped] is not incremented for evicted messages. *)
Theorem buffer_compaction (data : WsMsg) (pg : Page) :
  engine (step (Receive data) pg) = engine pg
  /\ ((length (messages pg) <= 1000)%nat ->
      messages (step (Receive data) pg) = messages pg ++ [data])
  /\ ((1000 < length (messages pg))%nat ->
      messages (step (Receive data) pg)
      = JS.slice_last 800 (messages pg) ++ [data]
      /\ length (messages (step (Receive data) pg)) = 801%nat).
Proof.
  simpl. unfold onmessage. split; [reflexivity |]. split; intro H.
  - apply Nat.ltb_ge in H. rewrite H. reflexivity.
  - pose proof H as Hb. apply Nat.ltb_lt in Hb. rewrite Hb.
    split; [reflexivity |].
    rewrite length_app, slice_last_length. cbn [length]. lia.
Qed.

Lemma buffer_compaction_witness :
  length (messages (step (Receive scenarioSnapshot) (pendingPage 1001)))
  = 801%nat
  /\ messages (step (Receive scenarioSnapshot) (pendingPage 1000))
     = messages (pendingPage 1000) ++ [scenarioSnapshot].
Proof.
  split.
  - apply (buffer_compaction scenarioSnapshot (pendingPage 1001)).
    apply Nat.ltb_lt. vm_compute. reflexivity.
  - apply (buffer_compaction scenarioSnapshot (pendingPage 1000)).
    apply Nat.leb_le. vm_compute. reflexivity.
Defined.

(** ** Incremental messages *)

Lemma hasPrice_existsb (p : number) (l : list Level) :
  hasPrice p l
  <-> existsb (fun lv => JS.strict_eq (fst lv) p) l = true.
Proof.
  unfold hasPrice. rewrite Exists_exists, existsb_exists.
  split; intros [lv [Hin H]]; exists lv; (split; [exact Hin |]);
    apply strict_eq_true; exact H.
Qed.

Lemma filter_absent (p : number) (l : list Level) :
  ~ hasPrice p l ->
  filter (fun lv => negb (JS.strict_eq (fst lv) p)) l = l.
Proof.
  unfold hasPrice. induction l as [| x rest IH]; intro H; simpl.
  - reflexivity.
  - destruct (JS.strict_eq (fst x) p) eqn:E; simpl.
    + exfalso. apply H. left. apply strict_eq_true, E.
    + rewrite IH; [reflexivity |]. intro F. apply H. right. exact F.
Qed.

Lemma replaceFirst_present (p : number) (v : Level) (l : list Level) :
  hasPrice p l ->
  length (replaceFirst (fun lv => JS.strict_eq (fst lv) p) v l) = length l.
Proof.
  unfold hasPrice. induction 1 as [x rest Hx | x rest Hrest IH]; simpl.
  - apply strict_eq_true in Hx. unfold price in Hx. rewrite Hx. reflexivity.
  - destruct (JS.strict_eq (fst x) p); simpl; [reflexivity |].
    rewrite IH. reflexivity.
Qed.

(** The named side after an unknown [update_type]: sorted and sliced only. *)
Lemma unknown_side (m : IncrementalMsg) (prev : Book) :
  isUnknown m ->
  side (inc_is_bid m) (applyIncremental m prev)
  = JS.slice_to 50
      (JS.sort (compareLevels (inc_is_bid m)) (side (inc_is_bid m) prev)).
Proof.
  intros [H0 [H1 H2]]. rewrite applyIncremental_side.
  rewrite updateLevels_unknown by assumption. reflexivity.
Qed.

(** C5, as the specification states it, fails: the unknown [update_type] 7
    does not move [dropped], and on the book left by the snapshot that lists
    bid 99 before bid 100 it does change the book (the bids get sorted). *)
Lemma unknown_update_counterexample :
  isUnknown unknownUpdate
  /\ ~ dropped (applyMessage 0 (Incremental unknownUpdate) initial)
       == dropped initial + 1
  /\ book (applyMessage 0 (Incremental unknownUpdate) unsortedState)
     <> book unsortedState.
Proof.
  split; [| split].
  - unfold isUnknown. simpl. repeat split; intro H; discriminate H.
  - simpl. intro H. discriminate H.
  - vm_compute. intro H. discriminate H.
Qed.

(** C5, amended.  An incremental message whose [update_type] is outside
    {0, 1, 2} adds, replaces and removes no level and cannot fail: the side
    it names is only sorted into side order and cut to 50 levels, the other
    side is untouched, so the book is unchanged whenever the named side was
    already in side order within 50 levels.  [dropped] is not incremented. *)
Theorem unknown_update_type (now : number) (m : IncrementalMsg) (st : State) :
  isUnknown m ->
  dropped (applyMessage now (Incremental m) st) = dropped st
  /\ side (inc_is_bid m) (book (applyMessage now (Incremental m) st))
     = JS.slice_to 50
         (JS.sort (compareLevels (inc_is_bid m))
            (side (inc_is_bid m) (book st)))
  /\ side (negb (inc_is_bid m)) (book (applyMessage now (Incremental m) st))
     = side (negb (inc_is_bid m)) (book st)
  /\ (weaklySorted (inc_is_bid m) (side (inc_is_bid m) (book st)) ->
      (length (side (inc_is_bid m) (book st)) <= depthLimit)%nat ->
      book (applyMessage now (Incremental m) st) = book st).
Proof.
  intro Hm. simpl. split; [reflexivity |].
  split; [apply unknown_side, Hm |].
  split; [apply applyIncremental_other |].
  intros S L. apply (book_ext _ _ (inc_is_bid m)).
  - rewrite unknown_side by exact Hm. apply sort_slice_id; assumption.
  - apply applyIncremental_other.
  - apply applyIncremental_lastSeq.
Qed.

Lemma unknown_update_type_witness :
  dropped (applyMessage 0 (Incremental unknownUpdate) initial) = 0
  /\ book (applyMessage 0 (Incremental unknownUpdate) initial) = book initial.
Proof.
  assert (U : isUnknown unknownUpdate)
    by (unfold isUnknown; simpl; repeat split; intro H; discriminate H).
  split.
  - apply (unknown_update_type 0 unknownUpdate initial U).
  - apply (unknown_update_type 0 unknownUpdate initial U).
    + constructor.
    + simpl. unfold depthLimit. lia.
Defined.

(** C6, as the specification states it, fails: after an upsert of bid 100
    with quantity 0 on the empty book, for [update_type] 0 and for 2, the
    bid side holds the level [[100, 0]]. *)
Lemma zero_quantity_counterexample :
  bids (book (applyMessage 0 (Incremental (incrementalOf true 0 (levelAt 100 0)))
                initial))
  = [levelAt 100 0]
  /\ bids (book (applyMessage 0
                   (Incremental (incrementalOf true 2 (levelAt 100 0)))
                   initial))
     = [levelAt 100 0]
  /\ hasPrice 100
       (bids (book (applyMessage 0
                      (Incremental (incrementalOf true 0 (levelAt 100 0)))
                      initial))).
Proof.
  split; [vm_compute; reflexivity |].
  split; [vm_compute; reflexivity |].
  apply hasPrice_existsb. vm_compute. reflexivity.
Qed.

(** C6, amended.  Quantity 0 is not treated as a removal.  An upsert
    ([update_type] 0 or 2) with quantity 0 at price p writes the level
    [[p, 0]] like any other quantity: when the side holds fewer than 50
    levels, or already lists p among at most 50 levels, the level of the
    message, with price p and quantity 0, is on that side afterwards. *)
Theorem zero_quantity_upsert (now : number) (m : IncrementalMsg) (st : State) :
  isUpsert m ->
  qty (inc_level m) == 0 ->
  (length (side (inc_is_bid m) (book st)) < depthLimit)%nat
  \/ (hasPrice (price (inc_level m)) (side (inc_is_bid m) (book st))
      /\ (length (side (inc_is_bid m) (book st)) <= depthLimit)%nat) ->
  exists lv,
    In lv (side (inc_is_bid m) (book (applyMessage now (Incremental m) st)))
    /\ price lv == price (inc_level m) /\ qty lv == 0.
Proof.
  intros Hm Hq Hlen. exists (inc_level m).
  split; [| split; [reflexivity | exact Hq]].
  rewrite book_incremental, applyIncremental_side.
  rewrite updateLevels_upsert by exact Hm.
  set (arr := replaceFirst _ _ _).
  assert (Hin : In (inc_level m) arr).
  { subst arr. destruct (inc_level m) as [p q]. apply replaceFirst_In. }
  assert (Harr : (length arr <= 50)%nat).
  { subst arr. unfold depthLimit in Hlen. destruct Hlen as [L | [P L]].
    - eapply Nat.le_trans; [apply replaceFirst_length | exact L].
    - unfold price at 1. rewrite replaceFirst_present by exact P. exact L. }
  rewrite slice_to_short by (rewrite sort_length; exact Harr).
  eapply Permutation_in; [apply Permutation_sym, sort_perm | exact Hin].
Qed.

Lemma zero_quantity_upsert_witness :
  exists lv,
    In lv (side true
             (book (applyMessage 0
                      (Incremental (incrementalOf true 0 (levelAt 100 0)))
                      (run [(0, scenarioSnapshot)] initial))))
    /\ price lv == 100 /\ qty lv == 0.
Proof.
  apply (zero_quantity_upsert 0 (incrementalOf true 0 (levelAt 100 0))
           (run [(0, scenarioSnapshot)] initial)).
  - left. reflexivity.
  - reflexivity.
  - right. split.
    + apply hasPrice_existsb. vm_compute. reflexivity.
    + vm_compute. lia.
Defined.

(** C9, as the specification states it, fails in its second half: on the
    book left by the snapshot that lists bid 99 before bid 100, removing the
    absent bid 98 changes the book, because the bid side gets sorted. *)
Lemma remove_absent_counterexample :
  ~ hasPrice 98 (bids (book unsortedState))
  /\ book (applyMessage 0 (Incremental (incrementalOf true 1 (levelAt 98 0)))
             unsortedState)
     <> book unsortedState.
Proof.
  split.
  - intro H. apply hasPrice_existsb in H. vm_compute in H. discriminate H.
  - vm_compute. intro H. discriminate H.
Qed.

Lemma upsert_on_empty (up : IncrementalMsg) (prev : Book) :
  isUpsert up ->
  side (inc_is_bid up) prev = [] ->
  side (inc_is_bid up) (applyIncremental up prev) = [inc_level up].
Proof.
  intros Hup Hempty.
  rewrite applyIncremental_side, updateLevels_upsert by exact Hup.
  rewrite Hempty. unfold price, qty. destruct (inc_level up) as [p q].
  reflexivity.
Qed.

(** C9, amended.  An upsert of (p, q) followed by the removal of p, both on
    a side that was empty, leaves that side empty and records no drop.  A
    removal of a price the side does not list leaves the book unchanged and
    records no drop when that side is in side order and holds at most 50
    levels; the updater otherwise still sorts and cuts the side. *)
Theorem upsert_then_remove :
  (forall (now1 now2 : number) (up rm : IncrementalMsg) (st : State),
      isUpsert up -> isRemove rm ->
      inc_is_bid rm = inc_is_bid up ->
      price (inc_level rm) == price (inc_level up) ->
      side (inc_is_bid up) (book st) = [] ->
      side (inc_is_bid up)
        (book (applyMessage now2 (Incremental rm)
                 (applyMessage now1 (Incremental up) st))) = []
      /\ dropped (applyMessage now2 (Incremental rm)
                    (applyMessage now1 (Incremental up) st)) = dropped st)
  /\ (forall (now : number) (rm : IncrementalMsg) (st : State),
         isRemove rm ->
         ~ hasPrice (price (inc_level rm)) (side (inc_is_bid rm) (book st)) ->
         weaklySorted (inc_is_bid rm) (side (inc_is_bid rm) (book st)) ->
         (length (side (inc_is_bid rm) (book st)) <= depthLimit)%nat ->
         book (applyMessage now (Incremental rm) st) = book st
         /\ dropped (applyMessage now (Incremental rm) st) = dropped st).
Proof.
  split.
  - intros now1 now2 up rm st Hup Hrm Hbid Hprice Hempty.
    split; [| reflexivity].
    rewrite !book_incremental.
    pose proof (upsert_on_empty up (book st) Hup Hempty) as E.
    rewrite <- Hbid in *.
    rewrite applyIncremental_side, E.
    rewrite updateLevels_remove by exact Hrm.
    unfold price in *. destruct (inc_level up) as [p q]. simpl in *.
    assert (S : JS.strict_eq p (fst (inc_level rm)) = true)
      by (apply strict_eq_true; symmetry; exact Hprice).
    rewrite S. reflexivity.
  - intros now rm st Hrm Habsent Hsorted Hlen.
    split; [| reflexivity].
    rewrite book_incremental. apply (book_ext _ _ (inc_is_bid rm)).
    + rewrite applyIncremental_side.
      rewrite updateLevels_remove by exact Hrm.
      rewrite filter_absent by exact Habsent.
      apply sort_slice_id; assumption.
    + apply applyIncremental_other.
    + apply applyIncremental_lastSeq.
Qed.

Lemma upsert_then_remove_witness :
  side true
    (book (applyMessage 2 (Incremental (incrementalOf true 1 (levelAt 100 0)))
             (applyMessage 1
                (Incremental (incrementalOf true 0 (levelAt 100 7)))
                initial))) = []
  /\ book (applyMessage 3 (Incremental (incrementalOf true 1 (levelAt 98 0)))
             (run [(0, scenarioSnapshot)] initial))
     = book (run [(0, scenarioSnapshot)] initial).
Proof.
  split.
  - apply (proj1 upsert_then_remove 1 2
             (incrementalOf true 0 (levelAt 100 7))
             (incrementalOf true 1 (levelAt 100 0)) initial).
    + left. reflexivity.
    + reflexivity.
    + reflexivity.
    + reflexivity.
    + reflexivity.
  - apply (proj2 upsert_then_remove 3
             (incrementalOf true 1 (levelAt 98 0))
             (run [(0, scenarioSnapshot)] initial)).
    + reflexivity.
    + intro H. apply hasPrice_existsb in H. vm_compute in H. discriminate H.
    + repeat constructor; unfold inOrder, price; simpl; unfold Qle; simpl; lia.
    + vm_compute. lia.
Defined.

(** ** The latency window and its mean *)

Lemma latency_applyMessage (now : number) (m : WsMsg) (st : State) :
  latency (applyMessage now m st)
  = recordLatency (now - timestamp m) (latency st).
Proof. destruct m; reflexivity. Qed.

(** Recording a sample in the last-200 window of a history gives the
    last-200 window of the history extended by the sample. *)
Lemma recordLatency_window (x : number) (history : list number) :
  recordLatency x (JS.slice_last 200 history)
  = JS.slice_last 200 (history ++ [x]).
Proof.
  unfold recordLatency, JS.push, JS.shift, JS.slice_last.
  rewrite !length_app, length_skipn. cbn [length].
  destruct (Nat.lt_ge_cases (length history) 200) as [Hlt | Hge].
  - replace (length history - 200)%nat with 0%nat by lia.
    replace (length history + 1 - 200)%nat with 0%nat by lia.
    rewrite !skipn_0.
    replace (200 <? length history - 0 + 1)%nat with false
      by (symmetry; apply Nat.ltb_ge; lia).
    reflexivity.
  - replace (200 <? length history - (length history - 200) + 1)%nat
      with true by (symmetry; apply Nat.ltb_lt; lia).
    rewrite skipn_app.
    replace (length history + 1 - 200 - length history)%nat with 0%nat by lia.
    rewrite skipn_0.
    replace (length history + 1 - 200)%nat
      with (1 + (length history - 200))%nat by lia.
    rewrite <- skipn_skipn.
    remember (skipn (length history - 200) history) as w eqn:Ew.
    assert (Lw : length w = 200%nat)
      by (subst w; rewrite length_skipn; lia).
    destruct w as [| y w']; [discriminate Lw | reflexivity].
Qed.

Lemma run_snoc (trace : list (number * WsMsg)) (e : number * WsMsg)
  (st : State) :
  run (trace ++ [e]) st = applyMessage (fst e) (snd e) (run trace st).
Proof. unfold run. rewrite fold_left_app. reflexivity. Qed.

Lemma latency_run (trace : list (number * WsMsg)) :
  latency (run trace initial) = JS.slice_last 200 (observations trace).
Proof.
  induction trace as [| e trace IH] using rev_ind.
  - reflexivity.
  - rewrite run_snoc, latency_applyMessage, IH.
    unfold observations. rewrite map_app. apply recordLatency_window.
Qed.

Lemma fold_left_Qplus (l : list Q) (a : Q) :
  fold_left Qplus l a == a + fold_right Qplus 0 l.
Proof.
  revert a. induction l as [| x rest IH]; intro a; simpl.
  - ring.
  - rewrite IH. ring.
Qed.

Lemma latencyMs_mean (x : number) (w : list number) :
  latencyMs (x :: w) = JS.Math_round (Spec.mean (x :: w)).
Proof.
  unfold latencyMs, JS.Math_round, Spec.mean.
  cbn [length Nat.eqb]. f_equal. apply Qfloor_comp.
  rewrite fold_left_Qplus. ring_simplify (0 + fold_right Qplus 0 (x :: w)).
  reflexivity.
Qed.

(** [Math.round] returns an integer nearest to its argument. *)
Lemma Math_round_nearest (x : Q) (z : Z) :
  Qabs (x - JS.Math_round x) <= Qabs (x - inject_Z z).
Proof.
  unfold JS.Math_round.
  pose proof (Qfloor_le (x + (1 # 2))) as Hlo.
  pose proof (Qlt_floor (x + (1 # 2))) as Hhi.
  rewrite inject_Z_plus in Hhi.
  set (n := Qfloor (x + (1 # 2))) in *. clearbody n.
  change (inject_Z 1) with 1 in Hhi.
  assert (Hz : inject_Z z + 1 <= inject_Z n \/ z = n
               \/ inject_Z n + 1 <= inject_Z z).
  { change 1 with (inject_Z 1). rewrite <- !inject_Z_plus, <- !Zle_Qle. lia. }
  assert (Hn : Qabs (x - inject_Z n) <= 1 # 2).
  { apply Qabs_Qle_condition.
    set (q := inject_Z n) in *. clearbody q. split; lra. }
  destruct Hz as [Hz | [Hz | Hz]].
  - apply Qle_trans with (1 # 2); [exact Hn |].
    eapply Qle_trans; [| apply Qle_Qabs].
    set (q := inject_Z n) in *. set (r := inject_Z z) in *.
    clearbody q r. lra.
  - subst z. apply Qle_refl.
  - apply Qle_trans with (1 # 2); [exact Hn |].
    rewrite <- Qabs_opp.
    eapply Qle_trans; [| apply Qle_Qabs].
    set (q := inject_Z n) in *. set (r := inject_Z z) in *.
    clearbody q r. lra.
Qed.

Lemma hookRun_snoc (frames : list (number * list WsMsg))
  (f : number * list WsMsg) :
  hookRun (frames ++ [f]) = renderHook (fst f) (snd f) (hookRun frames).
Proof. unfold hookRun. rewrite fold_left_app. reflexivity. Qed.

Lemma frameObservations_snoc (frames : list (number * list WsMsg))
  (f : number * list WsMsg) :
  frameObservations (frames ++ [f])
  = frameObservations frames
    ++ match lastMessage (snd f) with
       | Some m => [fst f - timestamp m]
       | None => []
       end.
Proof.
  unfold frameObservations. rewrite flat_map_app. simpl.
  rewrite app_nil_r. reflexivity.
Qed.

(** The window held by the hook is the last 200 observations of its frames. *)
Lemma latency_hookRun (frames : list (number * list WsMsg)) :
  latency (rd_state (hookRun frames))
  = JS.slice_last 200 (frameObservations frames).
Proof.
  induction frames as [| f frames IH] using rev_ind.
  - reflexivity.
  - rewrite hookRun_snoc, frameObservations_snoc.
    unfold renderHook, useOrderbook_effect. cbn [rd_state].
    destruct (lastMessage (snd f)) as [m |].
    + rewrite latency_applyMessage, IH. apply recordLatency_window.
    + rewrite app_nil_r. exact IH.
Qed.

(** The value returned is the memo of the window before the last frame. *)
Lemma shown_hookRun (frames : list (number * list WsMsg)) :
  rd_latencyMs (hookRun frames)
  = latencyMs (JS.slice_last 200 (frameObservations (removelast frames))).
Proof.
  destruct frames as [| f0 rest] using rev_ind.
  - reflexivity.
  - rewrite hookRun_snoc, removelast_last. unfold renderHook.
    cbn [rd_latencyMs]. rewrite latency_hookRun. reflexivity.
Qed.

(** The body of the memo returns an integer. *)
Lemma latencyMs_integer (x : number) (w : list number) :
  latencyMs (x :: w)
  = inject_Z (Qfloor (Spec.mean (x :: w) + (1 # 2))).
Proof. rewrite latencyMs_mean. reflexivity. Qed.



(** * The scenario of section 8, run on the model *)

Example scenario_after_snapshot :
  spread (book (run (firstn 1 scenarioTrace) initial))
  = Some {| value := 1; mid := 201 # 2 |}.
Proof. vm_compute. reflexivity. Qed.

Example scenario_after_upsert :
  bids (book (run (firstn 2 scenarioTrace) initial))
  = [levelAt 100 7; levelAt 99 3]
  /\ spread (book (run (firstn 2 scenarioTrace) initial))
     = Some {| value := 1; mid := 201 # 2 |}.
Proof. split; vm_compute; reflexivity. Qed.

Example scenario_after_remove :
  bids (book (run scenarioTrace initial)) = [levelAt 99 3]
  /\ spread (book (run scenarioTrace initial))
     = Some {| value := 2; mid := 200 # 2 |}
  /\ latency (run scenarioTrace initial) = [10; 20; 30]
  /\ latencyMs (latency (run scenarioTrace initial)) = 20.
Proof. repeat split; vm_compute; reflexivity. Qed.

(** * Further properties of [useOrderbook] *)

Lemma side_incremental (now : number) (m : IncrementalMsg) (st : State) :
  side (inc_is_bid m) (book (applyMessage now (Incremental m) st))
  = JS.slice_to 50
      (JS.sort (compareLevels (inc_is_bid m))
         (updateLevels (inc_update_type m) (price (inc_level m))
            (qty (inc_level m)) (side (inc_is_bid m) (book st)))).
Proof. rewrite book_incremental. apply applyIncremental_side. Qed.

Lemma sorted_app_split {A : Type} (R : A -> A -> Prop) (l1 l2 : list A) :
  StronglySorted R (l1 ++ l2) ->
  Forall (fun a => Forall (R a) l2) l1.
Proof.
  induction l1 as [| x rest IH]; simpl; intro H; [constructor |].
  inversion H as [| ? ? Hrest Hx]; subst.
  constructor; [| apply IH, Hrest].
  rewrite Forall_forall in *. intros y Hy. apply Hx, in_or_app. right. exact Hy.
Qed.

Lemma replaceFirst_incl {A : Type} (f : A -> bool) (v x : A) (l : list A) :
  In x (replaceFirst f v l) -> x = v \/ In x l.
Proof.
  induction l as [| y rest IH]; simpl.
  - intros [H | []]. left. symmetry. exact H.
  - destruct (f y); simpl; intros [H | H]; auto.
    destruct (IH H); auto.
Qed.

Lemma updateLevels_incl (ut p q : number) (arr : list Level) (lv : Level) :
  In lv (updateLevels ut p q arr) -> In lv arr \/ lv = (p, q).
Proof.
  destruct (updateLevels_cases ut p q arr) as [E | [E | E]]; rewrite E; intro H.
  - apply replaceFirst_incl in H. tauto.
  - apply filter_In in H. tauto.
  - tauto.
Qed.

Lemma incremental_side_shape (now : number) (m : IncrementalMsg)
  (st : State) :
  weaklySorted (inc_is_bid m)
    (side (inc_is_bid m) (book (applyMessage now (Incremental m) st)))
  /\ (length (side (inc_is_bid m)
                (book (applyMessage now (Incremental m) st))) <= 50)%nat.
Proof.
  rewrite side_incremental. split.
  - apply slice_to_sorted, sort_weaklySorted.
  - apply slice_to_length.
Qed.

Lemma removed_price_absent (now : number) (m : IncrementalMsg) (st : State) :
  isRemove m ->
  ~ hasPrice (price (inc_level m))
      (side (inc_is_bid m) (book (applyMessage now (Incremental m) st))).
Proof.
  intros Hm H. rewrite side_incremental in H.
  rewrite updateLevels_remove in H by exact Hm.
  unfold hasPrice in H. apply Exists_exists in H. destruct H as [lv [Hin Hp]].
  apply slice_to_incl in Hin.
  apply (Permutation_in _ (sort_perm _ _)) in Hin.
  apply filter_In in Hin. destruct Hin as [_ Hneg].
  apply negb_true_iff, strict_eq_false in Hneg. apply Hneg. exact Hp.
Qed.

(** X1.  Whatever the book was and whatever [update_type] is, after an
    incremental message the side it names is in side order (bids by
    descending, asks by ascending price) and holds at most 50 levels. *)
Theorem incremental_side_sorted_bounded (now : number) (m : IncrementalMsg)
  (st : State) :
  weaklySorted (inc_is_bid m)
    (side (inc_is_bid m) (book (applyMessage now (Incremental m) st)))
  /\ (length (side (inc_is_bid m)
                (book (applyMessage now (Incremental m) st))) <= 50)%nat.
Proof.
  destruct (incremental_side_shape now m st) as [Hsorted Hdepth].
  split; [exact Hsorted | exact Hdepth].
Qed.

(** X2.  An incremental message never invents a level: every level on the
    named side afterwards was on that side before or is the level of the
    message. *)
Theorem incremental_no_new_levels (now : number) (m : IncrementalMsg)
  (st : State) (lv : Level) :
  In lv (side (inc_is_bid m) (book (applyMessage now (Incremental m) st))) ->
  In lv (side (inc_is_bid m) (book st)) \/ lv = inc_level m.
Proof.
  rewrite side_incremental. intro H.
  apply slice_to_incl in H.
  apply (Permutation_in _ (sort_perm _ _)) in H.
  apply updateLevels_incl in H.
  unfold price, qty in H. destruct (inc_level m). exact H.
Qed.

Lemma incremental_no_new_levels_witness :
  In (levelAt 99 3) (side true (book (run [(0, scenarioSnapshot)] initial)))
  \/ levelAt 99 3 = levelAt 100 7.
Proof.
  apply (incremental_no_new_levels 0 (incrementalOf true 0 (levelAt 100 7))
           (run [(0, scenarioSnapshot)] initial) (levelAt 99 3)).
  vm_compute. right. left. reflexivity.
Defined.

(** X3.  Truncation drops only the worst levels: the side kept after an
    incremental message, together with the levels cut off, is a
    rearrangement of the updated side, and every kept level is at least as
    good in side order as every level cut off. *)
Theorem incremental_truncation (now : number) (m : IncrementalMsg)
  (st : State) :
  exists cut : list Level,
    Permutation
      (side (inc_is_bid m) (book (applyMessage now (Incremental m) st)) ++ cut)
      (updateLevels (inc_update_type m) (price (inc_level m))
         (qty (inc_level m)) (side (inc_is_bid m) (book st)))
    /\ Forall (fun kept => Forall (inOrder (inc_is_bid m) kept) cut)
         (side (inc_is_bid m) (book (applyMessage now (Incremental m) st))).
Proof.
  rewrite side_incremental.
  set (upd := updateLevels _ _ _ _).
  set (sorted := JS.sort (compareLevels (inc_is_bid m)) upd).
  exists (skipn 50 sorted). unfold JS.slice_to. split.
  - rewrite firstn_skipn. apply sort_perm.
  - apply sorted_app_split. rewrite firstn_skipn. apply sort_weaklySorted.
Qed.

(** X4.  A removal removes: after an incremental message with
    [update_type] 1, whatever the book was, the named side lists no level
    at the price of the message. *)
Theorem remove_clears_price (now : number) (m : IncrementalMsg) (st : State) :
  isRemove m ->
  ~ hasPrice (price (inc_level m))
      (side (inc_is_bid m) (book (applyMessage now (Incremental m) st))).
Proof.
  intros Hm Hlisted.
  exact (removed_price_absent now m st Hm Hlisted).
Qed.

Lemma remove_clears_price_witness :
  ~ hasPrice 100
      (side true
         (book (applyMessage 0
                  (Incremental (incrementalOf true 1 (levelAt 100 0)))
                  (run [(0, duplicateSnapshot)] initial)))).
Proof.
  apply (remove_clears_price 0 (incrementalOf true 1 (levelAt 100 0))
           (run [(0, duplicateSnapshot)] initial)).
  reflexivity.
Defined.

Lemma filter_length_le {A : Type} (f : A -> bool) (l : list A) :
  (length (filter f l) <= length l)%nat.
Proof.
  induction l as [| x rest IH]; simpl; [lia |].
  destruct (f x); simpl; lia.
Qed.

(** X5.  On a side in side order within 50 levels a removal deletes the
    levels at the price of the message and nothing else: the other levels
    stay, in their order, and the rest of the book is untouched. *)
Theorem remove_exact (now : number) (m : IncrementalMsg) (st : State) :
  isRemove m ->
  weaklySorted (inc_is_bid m) (side (inc_is_bid m) (book st)) ->
  (length (side (inc_is_bid m) (book st)) <= 50)%nat ->
  side (inc_is_bid m) (book (applyMessage now (Incremental m) st))
  = filter (fun lv => negb (JS.strict_eq (price lv) (price (inc_level m))))
      (side (inc_is_bid m) (book st)).
Proof.
  intros Hm Hs Hl. rewrite side_incremental.
  rewrite updateLevels_remove by exact Hm.
  apply sort_slice_id.
  - apply filter_sorted, Hs.
  - eapply Nat.le_trans; [apply filter_length_le | exact Hl].
Qed.

Lemma remove_exact_witness :
  side true
    (book (applyMessage 0 (Incremental (incrementalOf true 1 (levelAt 100 0)))
             (run [(0, scenarioSnapshot)] initial)))
  = [levelAt 99 3].
Proof.
  apply (remove_exact 0 (incrementalOf true 1 (levelAt 100 0))
           (run [(0, scenarioSnapshot)] initial)).
  - reflexivity.
  - repeat constructor; unfold inOrder, price; simpl; unfold Qle; simpl; lia.
  - vm_compute. lia.
Defined.

(** X6.  A removal is idempotent on every book: delivering the same removal
    a second time changes nothing. *)
Theorem remove_idempotent (now1 now2 : number) (m : IncrementalMsg)
  (st : State) :
  isRemove m ->
  book (applyMessage now2 (Incremental m) (applyMessage now1 (Incremental m) st))
  = book (applyMessage now1 (Incremental m) st).
Proof.
  intro Hm.
  pose proof (incremental_side_shape now1 m st) as [Hs Hl].
  pose proof (removed_price_absent now1 m st Hm) as Habs.
  set (st1 := applyMessage now1 (Incremental m) st) in *.
  rewrite (book_incremental now2). apply (book_ext _ _ (inc_is_bid m)).
  - rewrite applyIncremental_side.
    rewrite updateLevels_remove by exact Hm.
    rewrite filter_absent by exact Habs.
    apply sort_slice_id; assumption.
  - apply applyIncremental_other.
  - apply applyIncremental_lastSeq.
Qed.

Lemma remove_idempotent_witness :
  book (applyMessage 2 (Incremental (incrementalOf true 1 (levelAt 99 0)))
          (applyMessage 1 (Incremental (incrementalOf true 1 (levelAt 99 0)))
             unsortedState))
  = book (applyMessage 1 (Incremental (incrementalOf true 1 (levelAt 99 0)))
            unsortedState).
Proof.
  apply (remove_idempotent 1 2 (incrementalOf true 1 (levelAt 99 0))
           unsortedState).
  reflexivity.
Defined.

(** ** Upserts on a strictly sorted side *)

Lemma replaceFirst_In_iff (p q : number) (l : list Level) (lv : Level) :
  distinctPrices l ->
  (In lv (replaceFirst (fun x => JS.strict_eq (fst x) p) (p, q) l)
   <-> lv = (p, q) \/ (In lv l /\ ~ price lv == p)).
Proof.
  induction 1 as [| x rest Hx Hrest IH]; simpl.
  - split.
    + intros [H | []]. left. symmetry. exact H.
    + intros [H | [[] _]]. left. symmetry. exact H.
  - destruct (JS.strict_eq (fst x) p) eqn:E; simpl.
    + apply strict_eq_true in E. split.
      * intros [H | H]; [left; symmetry; exact H |].
        right. split; [right; exact H |].
        rewrite Forall_forall in Hx. intro Hp. apply (Hx lv H).
        unfold samePrice, price. rewrite E, Hp. reflexivity.
      * intros [H | [[H | H] N]].
        -- left. symmetry. exact H.
        -- subst lv. exfalso. apply N. exact E.
        -- right. exact H.
    + apply strict_eq_false in E. rewrite IH. split.
      * intros [H | [H | [H N]]].
        -- subst lv. right. split; [left; reflexivity | exact E].
        -- left. exact H.
        -- right. split; [right; exact H | exact N].
      * intros [H | [[H | H] N]].
        -- right. left. exact H.
        -- left. exact H.
        -- right. right. split; assumption.
Qed.

Lemma upsert_fits (p : number) (v : Level) (l : list Level) :
  (length l < 50)%nat \/ (hasPrice p l /\ (length l <= 50)%nat) ->
  (length (replaceFirst (fun x => JS.strict_eq (fst x) p) v l) <= 50)%nat.
Proof.
  intros [L | [P L]].
  - eapply Nat.le_trans; [apply replaceFirst_length | exact L].
  - rewrite replaceFirst_present by exact P. exact L.
Qed.

(** X7.  On a strictly sorted side an upsert of (p, q) sets the level at p
    and keeps every other level: when the side holds fewer than 50 levels,
    or already lists p among at most 50, the levels afterwards are exactly
    the level of the message and the former levels at other prices, and
    the side is again strictly sorted. *)
Theorem upsert_sets_level (now : number) (m : IncrementalMsg) (st : State) :
  isUpsert m ->
  sideSorted (inc_is_bid m) (side (inc_is_bid m) (book st)) ->
  (length (side (inc_is_bid m) (book st)) < 50)%nat
  \/ (hasPrice (price (inc_level m)) (side (inc_is_bid m) (book st))
      /\ (length (side (inc_is_bid m) (book st)) <= 50)%nat) ->
  sideSorted (inc_is_bid m)
    (side (inc_is_bid m) (book (applyMessage now (Incremental m) st)))
  /\ forall lv : Level,
       In lv (side (inc_is_bid m) (book (applyMessage now (Incremental m) st)))
       <-> lv = inc_level m
           \/ (In lv (side (inc_is_bid m) (book st))
               /\ ~ price lv == price (inc_level m)).
Proof.
  intros Hm Hs Hlen. rewrite side_incremental. split.
  - apply slice_to_sorted, updateLevels_sideSorted, Hs.
  - intro lv. rewrite updateLevels_upsert by exact Hm.
    rewrite slice_to_short
      by (rewrite sort_length; apply upsert_fits; exact Hlen).
    apply sideSorted_distinctPrices in Hs.
    pose proof (replaceFirst_In_iff (price (inc_level m)) (qty (inc_level m))
                  (side (inc_is_bid m) (book st)) lv Hs) as Hiff.
    replace (price (inc_level m), qty (inc_level m)) with (inc_level m) in *
      by (destruct (inc_level m); reflexivity).
    rewrite <- Hiff. split; intro H.
    + eapply Permutation_in; [apply sort_perm | exact H].
    + eapply Permutation_in; [apply Permutation_sym, sort_perm | exact H].
Qed.

Lemma upsert_sets_level_witness :
  sideSorted true
    (side true
       (book (applyMessage 0 (Incremental (incrementalOf true 0 (levelAt 100 7)))
                (run [(0, scenarioSnapshot)] initial))))
  /\ forall lv : Level,
       In lv (side true
                (book (applyMessage 0
                         (Incremental (incrementalOf true 0 (levelAt 100 7)))
                         (run [(0, scenarioSnapshot)] initial))))
       <-> lv = levelAt 100 7
           \/ (In lv (side true (book (run [(0, scenarioSnapshot)] initial)))
               /\ ~ price lv == 100).
Proof.
  apply (upsert_sets_level 0 (incrementalOf true 0 (levelAt 100 7))
           (run [(0, scenarioSnapshot)] initial)).
  - left. reflexivity.
  - repeat constructor; unfold strictlyInOrder, price; simpl;
      unfold Qlt; simpl; lia.
  - left. vm_compute. lia.
Defined.

Lemma distinct_samePrice_eq (l : list Level) (a b : Level) :
  distinctPrices l -> In a l -> In b l -> samePrice a b -> a = b.
Proof.
  induction 1 as [| x rest Hx Hrest IH]; simpl; [tauto |].
  rewrite Forall_forall in Hx.
  intros [Ha | Ha] [Hb | Hb] S.
  - congruence.
  - subst x. exfalso. exact (Hx b Hb S).
  - subst x. exfalso. exact (Hx a Ha (samePrice_sym _ _ S)).
  - apply IH; assumption.
Qed.

Lemma replaceFirst_self (p q : number) (l : list Level) :
  distinctPrices l -> In (p, q) l ->
  replaceFirst (fun x => JS.strict_eq (fst x) p) (p, q) l = l.
Proof.
  induction 1 as [| x rest Hx Hrest IH]; simpl; [tauto |].
  intro Hin. destruct (JS.strict_eq (fst x) p) eqn:E.
  - apply strict_eq_true in E. destruct Hin as [H | H].
    + subst x. reflexivity.
    + exfalso. rewrite Forall_forall in Hx. apply (Hx (p, q) H).
      unfold samePrice, price. simpl. exact E.
  - destruct Hin as [H | H].
    + subst x. simpl in E. apply strict_eq_false in E.
      exfalso. apply E. reflexivity.
    + rewrite IH by exact H. reflexivity.
Qed.

Lemma replaceFirst_absent (p : number) (v : Level) (l : list Level) :
  ~ hasPrice p l ->
  replaceFirst (fun x => JS.strict_eq (fst x) p) v l = l ++ [v].
Proof.
  unfold hasPrice. induction l as [| x rest IH]; intro H; simpl.
  - reflexivity.
  - destruct (JS.strict_eq (fst x) p) eqn:E.
    + exfalso. apply H. left. apply strict_eq_true, E.
    + rewrite IH; [reflexivity |]. intro F. apply H. right. exact F.
Qed.

Lemma sorted_snoc {A : Type} (R : A -> A -> Prop) (l : list A) (v : A) :
  StronglySorted R l -> Forall (fun a => R a v) l ->
  StronglySorted R (l ++ [v]).
Proof.
  induction 1 as [| x rest Hrest IH Hx]; intro Hv; simpl.
  - constructor; constructor.
  - inversion Hv as [| ? ? Hxv Hrestv]; subst.
    constructor; [apply IH, Hrestv |].
    apply Forall_app. split; [exact Hx |].
    constructor; [exact Hxv | constructor].
Qed.

(** The second of two equal upserts, seen on the side alone. *)
Lemma upsert_again (is_bid : bool) (p q : number) (arr : list Level) :
  sideSorted is_bid arr ->
  let f := fun x : Level => JS.strict_eq (fst x) p in
  let once := JS.slice_to 50
                (JS.sort (compareLevels is_bid) (replaceFirst f (p, q) arr)) in
  JS.slice_to 50 (JS.sort (compareLevels is_bid) (replaceFirst f (p, q) once))
  = once.
Proof.
  intros Hs f once.
  set (s := JS.sort (compareLevels is_bid) (replaceFirst f (p, q) arr)) in *.
  assert (Hss : sideSorted is_bid s).
  { apply sort_distinct_sideSorted, replaceFirst_distinctPrices.
    eapply sideSorted_distinctPrices, Hs. }
  assert (Hvs : In (p, q) s).
  { eapply Permutation_in; [apply Permutation_sym, sort_perm |].
    apply replaceFirst_In. }
  assert (Hso : sideSorted is_bid once) by (apply slice_to_sorted, Hss).
  assert (Hlo : (length once <= 50)%nat) by apply slice_to_length.
  destruct (existsb f once) eqn:E.
  - (* the level survived the cut: it is replaced by itself *)
    apply existsb_exists in E. destruct E as [lv [Hin Hp]].
    apply strict_eq_true in Hp.
    assert (Elv : lv = (p, q)).
    { apply (distinct_samePrice_eq s).
      - eapply sideSorted_distinctPrices, Hss.
      - eapply slice_to_incl, Hin.
      - exact Hvs.
      - exact Hp. }
    subst lv. unfold f.
    rewrite replaceFirst_self;
      [| eapply sideSorted_distinctPrices, Hso | exact Hin].
    apply sort_slice_id; [apply sideSorted_weaklySorted, Hso | exact Hlo].
  - (* the level was cut off: it is appended and cut off again *)
    assert (Habs : ~ hasPrice p once).
    { intro H. apply hasPrice_existsb in H.
      change (existsb f once = true) in H. rewrite E in H. discriminate H. }
    assert (Hcut : In (p, q) (skipn 50 s)).
    { rewrite <- (firstn_skipn 50 s) in Hvs. apply in_app_or in Hvs.
      destruct Hvs as [H | H]; [| exact H].
      exfalso. apply Habs. apply Exists_exists. exists (p, q).
      split; [exact H | reflexivity]. }
    assert (Hbefore : Forall (fun a => strictlyInOrder is_bid a (p, q)) once).
    { pose proof Hss as Hsplit. unfold sideSorted in Hsplit.
      rewrite <- (firstn_skipn 50 s) in Hsplit.
      apply sorted_app_split in Hsplit.
      eapply Forall_impl; [| exact Hsplit].
      intros a Ha. rewrite Forall_forall in Ha. apply Ha, Hcut. }
    assert (Hfull : length once = 50%nat).
    { unfold once, JS.slice_to. rewrite length_firstn.
      assert (50 < length s)%nat; [| lia].
      destruct (Nat.lt_ge_cases 50 (length s)) as [L | L]; [exact L |].
      rewrite skipn_all2 in Hcut by exact L. destruct Hcut. }
    unfold f. rewrite replaceFirst_absent by exact Habs.
    rewrite sort_weaklySorted_id.
    + unfold JS.slice_to. rewrite firstn_app, Hfull, Nat.sub_diag.
      rewrite <- Hfull at 1. rewrite firstn_all. simpl. apply app_nil_r.
    + apply sorted_snoc; [apply sideSorted_weaklySorted, Hso |].
      eapply Forall_impl; [| exact Hbefore].
      intros a. apply strictlyInOrder_inOrder.
Qed.

(** X8.  On a strictly sorted side an upsert is idempotent: delivering the
    same upsert a second time leaves the book as the first delivery left
    it, also when the side is full and the new level was cut off. *)
Theorem upsert_idempotent (now1 now2 : number) (m : IncrementalMsg)
  (st : State) :
  isUpsert m ->
  sideSorted (inc_is_bid m) (side (inc_is_bid m) (book st)) ->
  book (applyMessage now2 (Incremental m) (applyMessage now1 (Incremental m) st))
  = book (applyMessage now1 (Incremental m) st).
Proof.
  intros Hm Hs.
  rewrite (book_incremental now2). apply (book_ext _ _ (inc_is_bid m)).
  - rewrite applyIncremental_side, side_incremental.
    rewrite !updateLevels_upsert by exact Hm.
    apply (upsert_again (inc_is_bid m) (price (inc_level m))
             (qty (inc_level m)) _ Hs).
  - apply applyIncremental_other.
  - apply applyIncremental_lastSeq.
Qed.

Lemma upsert_idempotent_witness :
  book (applyMessage 2 (Incremental (incrementalOf true 0 (levelAt 100 7)))
          (applyMessage 1 (Incremental (incrementalOf true 0 (levelAt 100 7)))
             (run [(0, scenarioSnapshot)] initial)))
  = book (applyMessage 1 (Incremental (incrementalOf true 0 (levelAt 100 7)))
            (run [(0, scenarioSnapshot)] initial)).
Proof.
  apply (upsert_idempotent 1 2 (incrementalOf true 0 (levelAt 100 7))
           (run [(0, scenarioSnapshot)] initial)).
  - left. reflexivity.
  - repeat constructor; unfold strictlyInOrder, price; simpl;
      unfold Qlt; simpl; lia.
Defined.

(** ** The spread of an uncrossed book *)

Lemma half_Q (x : Q) : x / 2 == x * (1 # 2).
Proof. unfold Qdiv. reflexivity. Qed.

(** X9.  When the best bid does not exceed the best ask, the spread is not
    negative and the mid price lies between the two prices, ends
    included. *)
Theorem spread_mid_between (b : Book) (bestBid bestAsk : Level)
  (bs as_ : list Level) :
  bids b = bestBid :: bs ->
  asks b = bestAsk :: as_ ->
  price bestBid <= price bestAsk ->
  exists s : Spread,
    spread b = Some s
    /\ 0 <= value s
    /\ price bestBid <= mid s <= price bestAsk.
Proof.
  intros Hb Ha Hle. unfold spread. rewrite Hb, Ha. simpl.
  eexists. split; [reflexivity |]. simpl. unfold price in *.
  set (x := fst bestBid) in *. set (y := fst bestAsk) in *.
  clearbody x y. rewrite !half_Q. repeat split; lra.
Qed.

Lemma spread_mid_between_witness :
  exists s : Spread,
    spread (book (run [(0, scenarioSnapshot)] initial)) = Some s
    /\ 0 <= value s
    /\ price (levelAt 100 5) <= mid s <= price (levelAt 101 4).
Proof.
  apply (spread_mid_between (book (run [(0, scenarioSnapshot)] initial))
           (levelAt 100 5) (levelAt 101 4) [levelAt 99 3] [levelAt 102 2]).
  - reflexivity.
  - reflexivity.
  - unfold price, Qle. simpl. lia.
Defined.

(** ** The mean latency stays within the samples *)

Lemma length_cons_Q {A : Type} (x : A) (l : list A) :
  inject_Z (Z.of_nat (length (x :: l)))
  == inject_Z (Z.of_nat (length l)) + 1.
Proof.
  cbn [length]. rewrite Nat2Z.inj_succ, <- Z.add_1_r, inject_Z_plus.
  reflexivity.
Qed.

Lemma total_lower (a : Q) (l : list Q) :
  Forall (fun y => a <= y) l ->
  a * inject_Z (Z.of_nat (length l)) <= total l.
Proof.
  induction 1 as [| x rest Hx Hrest IH].
  - unfold total. cbn [length fold_right Z.of_nat].
    change (inject_Z 0) with 0. rewrite Qmult_0_r. apply Qle_refl.
  - rewrite length_cons_Q. unfold total in *. cbn [fold_right].
    set (N := inject_Z (Z.of_nat (length rest))) in *.
    set (T := fold_right Qplus 0 rest) in *. clearbody N T. nra.
Qed.

Lemma total_upper (b : Q) (l : list Q) :
  Forall (fun y => y <= b) l ->
  total l <= b * inject_Z (Z.of_nat (length l)).
Proof.
  induction 1 as [| x rest Hx Hrest IH].
  - unfold total. cbn [length fold_right Z.of_nat].
    change (inject_Z 0) with 0. rewrite Qmult_0_r. apply Qle_refl.
  - rewrite length_cons_Q. unfold total in *. cbn [fold_right].
    set (N := inject_Z (Z.of_nat (length rest))) in *.
    set (T := fold_right Qplus 0 rest) in *. clearbody N T. nra.
Qed.

Lemma length_positive_Q {A : Type} (x : A) (l : list A) :
  0 < inject_Z (Z.of_nat (length (x :: l))).
Proof.
  change 0 with (inject_Z 0). rewrite <- Zlt_Qlt. cbn [length]. lia.
Qed.

Lemma mean_within (a b : Q) (x : Q) (w : list Q) :
  Forall (fun y => a <= y <= b) (x :: w) ->
  a <= Spec.mean (x :: w) <= b.
Proof.
  intro H. unfold Spec.mean.
  pose proof (length_positive_Q x w) as Hn.
  split.
  - apply Qle_shift_div_l; [exact Hn |].
    apply (total_lower a (x :: w)).
    eapply Forall_impl; [| exact H]. intros y [Hy _]. exact Hy.
  - apply Qle_shift_div_r; [exact Hn |].
    apply (total_upper b (x :: w)).
    eapply Forall_impl; [| exact H]. intros y [_ Hy]. exact Hy.
Qed.

Lemma Math_round_within (lo hi : Z) (x : Q) :
  inject_Z lo <= x <= inject_Z hi ->
  inject_Z lo <= JS.Math_round x <= inject_Z hi.
Proof.
  intros [Hlo Hhi]. unfold JS.Math_round.
  pose proof (Qfloor_le (x + (1 # 2))) as Fl.
  set (n := Qfloor (x + (1 # 2))) in *.
  split; rewrite <- Zle_Qle.
  - rewrite <- (Qfloor_Z lo). apply Qfloor_resp_le.
    set (l := inject_Z lo) in *. clearbody l. lra.
  - assert (Hlt : inject_Z n < inject_Z (hi + 1)).
    { rewrite inject_Z_plus. change (inject_Z 1) with 1.
      set (h := inject_Z hi) in *. set (k := inject_Z n) in *.
      clearbody h k. lra. }
    rewrite <- Zlt_Qlt in Hlt. lia.
Qed.

(** X10.  The mean latency never leaves the range of the samples: when
    every sample of a non-empty window lies between the integers [lo] and
    [hi], so does [latencyMs]. *)
Theorem latencyMs_within_samples (lo hi : Z) (x : number) (w : list number) :
  Forall (fun y => inject_Z lo <= y <= inject_Z hi) (x :: w) ->
  inject_Z lo <= latencyMs (x :: w) <= inject_Z hi.
Proof.
  intro H. rewrite latencyMs_mean.
  apply Math_round_within, mean_within, H.
Qed.

Lemma latencyMs_within_samples_witness :
  inject_Z 5 <= latencyMs [5; 6; 6] <= inject_Z 6.
Proof.
  apply (latencyMs_within_samples 5 6 5 [6; 6]).
  repeat constructor; unfold Qle; simpl; lia.
Defined.

(** * Further properties of the buffer and of the page *)

Lemma lastMessage_snoc (ms : list WsMsg) (m : WsMsg) :
  lastMessage (ms ++ [m]) = Some m.
Proof.
  induction ms as [| x rest IH]; [reflexivity |].
  simpl. destruct (rest ++ [m]) eqn:E.
  - destruct rest; discriminate E.
  - exact IH.
Qed.

(** X11.  One run of the effect applies the newest message of the buffer
    and only that one: whatever else the buffer holds has no influence on
    the resulting state. *)
Theorem effect_applies_newest (now : number) (older1 older2 : list WsMsg)
  (m : WsMsg) (st : State) :
  useOrderbook_effect now (older1 ++ [m]) st = applyMessage now m st
  /\ useOrderbook_effect now (older1 ++ [m]) st
     = useOrderbook_effect now (older2 ++ [m]) st.
Proof.
  unfold useOrderbook_effect. rewrite !lastMessage_snoc. split; reflexivity.
Qed.

Lemma onmessage_snoc (data : WsMsg) (prev : list WsMsg) :
  exists kept, onmessage data prev = kept ++ [data].
Proof.
  unfold onmessage. destruct (1000 <? length prev)%nat; eexists; reflexivity.
Qed.

(** X12.  The two hooks compose: when a message is delivered and the effect
    then runs, the engine applies exactly the delivered message, also when
    the delivery compacted the buffer. *)
Theorem receive_then_effect (now : number) (data : WsMsg) (pg : Page) :
  engine (step (Effect now) (step (Receive data) pg))
  = applyMessage now data (engine pg).
Proof.
  simpl. destruct (onmessage_snoc data (messages pg)) as [kept E].
  rewrite E. unfold useOrderbook_effect. rewrite lastMessage_snoc. reflexivity.
Qed.

Lemma steps_invariant (P : Page -> Prop) :
  (forall ev pg, P pg -> P (step ev pg)) ->
  forall evs pg, P pg -> P (steps evs pg).
Proof.
  intros Hstep evs. unfold steps.
  induction evs as [| ev rest IH]; intros pg HP; simpl; [exact HP |].
  apply IH, Hstep, HP.
Qed.

Lemma onmessage_length (data : WsMsg) (prev : list WsMsg) :
  (length prev <= 1001)%nat -> (length (onmessage data prev) <= 1001)%nat.
Proof.
  intro H. unfold onmessage. destruct (1000 <? length prev)%nat eqn:E.
  - rewrite length_app, slice_last_length. cbn [length]. lia.
  - apply Nat.ltb_ge in E. rewrite length_app. cbn [length]. lia.
Qed.

(** X13.  The buffer is bounded: on every page reached from the start it
    holds at most 1001 messages. *)
Theorem buffer_bounded (evs : list Event) :
  (length (messages (steps evs startPage)) <= 1001)%nat.
Proof.
  apply (steps_invariant (fun pg => (length (messages pg) <= 1001)%nat)).
  - intros [data | now] pg H; simpl; [apply onmessage_length, H | exact H].
  - simpl. lia.
Qed.

Lemma onmessage_suffix (data : WsMsg) (history : list WsMsg) (k : nat) :
  (k <= length history)%nat ->
  exists k', (k' <= length (history ++ [data]))%nat
             /\ onmessage data (skipn k history)
                = skipn k' (history ++ [data]).
Proof.
  intro Hk. unfold onmessage, JS.slice_last.
  destruct (1000 <? length (skipn k history))%nat.
  - exists ((length (skipn k history) - 800) + k)%nat.
    rewrite length_skipn, length_app. cbn [length]. split; [lia |].
    rewrite skipn_skipn, skipn_app.
    replace (length history - k - 800 + k - length history)%nat
      with 0%nat by lia.
    reflexivity.
  - exists k. rewrite length_app. cbn [length]. split; [lia |].
    rewrite skipn_app.
    replace (k - length history)%nat with 0%nat by lia.
    reflexivity.
Qed.

Lemma steps_suffix (evs : list Event) (pg : Page) (history : list WsMsg)
  (k : nat) :
  (k <= length history)%nat ->
  messages pg = skipn k history ->
  exists k', (k' <= length (history ++ received evs))%nat
             /\ messages (steps evs pg) = skipn k' (history ++ received evs).
Proof.
  unfold steps. revert pg history k.
  induction evs as [| ev rest IH]; intros pg history k Hk Hm; simpl.
  - exists k. rewrite app_nil_r. split; assumption.
  - destruct ev as [data | now]; simpl.
    + destruct (onmessage_suffix data history k Hk) as [k1 [Hk1 E1]].
      destruct (IH {| messages := onmessage data (messages pg);
                      engine := engine pg |}
                  (history ++ [data]) k1 Hk1) as [k2 [Hk2 E2]].
      * simpl. rewrite Hm. exact E1.
      * exists k2. rewrite <- app_assoc in Hk2, E2. simpl in Hk2, E2.
        split; assumption.
    + apply (IH _ history k Hk). simpl. exact Hm.
Qed.

(** X14.  The buffer is first in, first out: on every page reached from
    the start it holds the most recent messages delivered, in arrival
    order, that is, the delivery history with some oldest messages cut
    off. *)
Theorem buffer_is_recent_history (evs : list Event) :
  exists k : nat,
    (k <= length (received evs))%nat
    /\ messages (steps evs startPage) = skipn k (received evs).
Proof.
  apply (steps_suffix evs startPage [] 0%nat); [simpl; lia | reflexivity].
Qed.

(** * Properties of [buildSide] and of the depth chart *)

Lemma cumulate_length (s : ChartSide) (c : number) (l : list Level) :
  length (cumulate s c l) = length l.
Proof.
  revert c. induction l as [| [p q] rest IH]; intro c; simpl;
    [reflexivity | rewrite IH; reflexivity].
Qed.

Lemma cumulate_Forall_price (P : number -> Prop) (s : ChartSide) (c : number)
  (l : list Level) :
  Forall (fun lv => P (price lv)) l ->
  Forall (fun pt => P (pt_price pt)) (cumulate s c l).
Proof.
  intro H. revert c. induction H as [| [p q] rest Hx Hrest IH]; intro c; simpl.
  - constructor.
  - constructor; [exact Hx | apply IH].
Qed.

Lemma cumulate_side (s : ChartSide) (c : number) (l : list Level) :
  Forall (fun pt => pt_side pt = s) (cumulate s c l).
Proof.
  revert c. induction l as [| [p q] rest IH]; intro c; simpl; constructor;
    [reflexivity | apply IH].
Qed.

Lemma cumulate_sorted (s : ChartSide) (c : number) (l : list Level) :
  weaklySorted (isBidSide s) l ->
  StronglySorted (pointsInOrder s) (cumulate s c l).
Proof.
  intro H. revert c.
  induction H as [| [p q] rest Hrest IH Hx]; intro c; simpl.
  - constructor.
  - constructor; [apply IH |].
    apply (cumulate_Forall_price
             (fun p' => if isBidSide s then p' <= p else p <= p')).
    exact Hx.
Qed.

(** X17.  [buildSide] returns one point per level, tagged with the side,
    and lists the points in side order (bids by descending, asks by
    ascending price) whatever the order of its input. *)
Theorem buildSide_sorted (levels : list Level) (s : ChartSide) :
  length (buildSide levels s) = length levels
  /\ Forall (fun pt => pt_side pt = s) (buildSide levels s)
  /\ StronglySorted (pointsInOrder s) (buildSide levels s).
Proof.
  unfold buildSide. split; [| split].
  - rewrite cumulate_length. apply sort_length.
  - apply cumulate_side.
  - apply cumulate_sorted, sort_weaklySorted.
Qed.

Lemma cumulate_nth (s : ChartSide) (l : list Level) :
  forall (c : number) (i : nat) (pt : DepthPoint),
    nth_error (cumulate s c l) i = Some pt ->
    exists lv,
      nth_error l i = Some lv
      /\ pt_price pt = price lv
      /\ pt_cumulative pt = fold_left Qplus (map qty (firstn (S i) l)) c.
Proof.
  induction l as [| [p q] rest IH]; intros c i pt H.
  - destruct i; discriminate H.
  - destruct i as [| i]; simpl in H.
    + injection H as <-. exists (p, q). repeat split.
    + destruct (IH (c + q) i pt H) as [lv [Hn [Hp Hc]]].
      exists lv. split; [exact Hn |]. split; [exact Hp |].
      rewrite Hc. reflexivity.
Qed.



Lemma cumulate_monotone (s : ChartSide) (l : list Level) :
  Forall (fun lv => 0 <= qty lv) l ->
  forall c : Q,
    Forall (fun pt => c <= pt_cumulative pt) (cumulate s c l)
    /\ StronglySorted (fun a b => pt_cumulative a <= pt_cumulative b)
         (cumulate s c l).
Proof.
  induction 1 as [| [p q] rest Hq Hrest IH]; intro c; simpl.
  - split; constructor.
  - destruct (IH (c + q)) as [Hge Hs]. unfold qty in Hq. simpl in Hq.
    split.
    + constructor; [simpl; lra |].
      eapply Forall_impl; [| exact Hge]. intros pt Hpt. simpl in *. lra.
    + constructor; [exact Hs |]. exact Hge.
Qed.

(** X19.  With no negative quantity in the input, the cumulative of
    [buildSide] never decreases from one point to the next and is never
    negative: each curve of the chart is a staircase rising away from the
    best price. *)
Theorem buildSide_monotone (levels : list Level) (s : ChartSide) :
  Forall (fun lv => 0 <= qty lv) levels ->
  Forall (fun pt => 0 <= pt_cumulative pt) (buildSide levels s)
  /\ StronglySorted (fun a b => pt_cumulative a <= pt_cumulative b)
       (buildSide levels s).
Proof.
  intro H. unfold buildSide. apply cumulate_monotone.
  apply (Permutation_Forall (Permutation_sym (sort_perm _ levels))). exact H.
Qed.

Lemma buildSide_monotone_witness :
  Forall (fun pt => 0 <= pt_cumulative pt)
    (buildSide [levelAt 99 3; levelAt 100 5] bid)
  /\ StronglySorted (fun a b => pt_cumulative a <= pt_cumulative b)
       (buildSide [levelAt 99 3; levelAt 100 5] bid).
Proof.
  apply (buildSide_monotone [levelAt 99 3; levelAt 100 5] bid).
  repeat constructor; unfold qty, Qle; simpl; lia.
Defined.

Lemma distinctPrices_perm (l l' : list Level) :
  Permutation l l' -> distinctPrices l -> distinctPrices l'.
Proof.
  unfold distinctPrices.
  induction 1 as [| x l l' Hp IH | x y l | l l' l'' _ IH1 _ IH2]; intro H.
  - exact H.
  - inversion H as [| ? ? Hx Hl]; subst.
    constructor; [| apply IH, Hl].
    apply (Permutation_Forall Hp). exact Hx.
  - inversion H as [| ? ? Hy Hxl]; subst.
    inversion Hxl as [| ? ? Hx Hl]; subst.
    inversion Hy as [| ? ? Hyx Hyl]; subst.
    constructor; [| constructor; assumption].
    constructor; [| exact Hx].
    intro S. apply Hyx, samePrice_sym, S.
  - apply IH2, IH1, H.
Qed.

Lemma strictlyInOrder_irrefl (is_bid : bool) (a : Level) :
  ~ strictlyInOrder is_bid a a.
Proof. unfold strictlyInOrder. destruct is_bid; intro H; lra. Qed.

(** Two strictly sorted sides with the same levels are the same list. *)
Lemma sideSorted_perm_eq (is_bid : bool) (l1 : list Level) :
  forall l2 : list Level,
    sideSorted is_bid l1 -> sideSorted is_bid l2 -> Permutation l1 l2 ->
    l1 = l2.
Proof.
  induction l1 as [| x r1 IH]; intros l2 H1 H2 Hp.
  - apply Permutation_nil in Hp. symmetry. exact Hp.
  - destruct l2 as [| y r2].
    + apply Permutation_sym, Permutation_nil in Hp. discriminate Hp.
    + inversion H1 as [| ? ? Hr1 Hx]; subst.
      inversion H2 as [| ? ? Hr2 Hy]; subst.
      assert (E : x = y).
      { pose proof (Permutation_in x Hp (or_introl eq_refl)) as Hxin.
        pose proof (Permutation_in y (Permutation_sym Hp) (or_introl eq_refl))
          as Hyin.
        destruct Hxin as [E | Hxin]; [symmetry; exact E |].
        destruct Hyin as [E | Hyin]; [exact E |].
        rewrite Forall_forall in Hx, Hy.
        exfalso. apply (strictlyInOrder_irrefl is_bid x).
        eapply strictlyInOrder_trans; [apply Hx, Hyin | apply Hy, Hxin]. }
      subst y. f_equal. apply IH; try assumption.
      eapply Permutation_cons_inv, Hp.
Qed.

(** X20.  For levels with pairwise different prices the curve of
    [buildSide] does not depend on the order in which the levels are
    listed. *)
Theorem buildSide_order_independent (l l' : list Level) (s : ChartSide) :
  distinctPrices l -> Permutation l l' ->
  buildSide l s = buildSide l' s.
Proof.
  intros Hd Hp. unfold buildSide. f_equal.
  apply (sideSorted_perm_eq (isBidSide s)).
  - apply sort_distinct_sideSorted, Hd.
  - apply sort_distinct_sideSorted. eapply distinctPrices_perm; eassumption.
  - eapply perm_trans; [apply sort_perm |].
    eapply perm_trans; [exact Hp | apply Permutation_sym, sort_perm].
Qed.

Lemma buildSide_order_independent_witness :
  buildSide [levelAt 100 5; levelAt 99 3] bid
  = buildSide [levelAt 99 3; levelAt 100 5] bid.
Proof.
  apply (buildSide_order_independent
           [levelAt 100 5; levelAt 99 3] [levelAt 99 3; levelAt 100 5] bid).
  - repeat constructor. unfold samePrice, price, Qeq. simpl. lia.
  - apply perm_swap.
Defined.

Lemma Math_min_None (xs : list number) : Math_min xs = None -> xs = [].
Proof.
  destruct xs as [| x rest]; [reflexivity |].
  simpl. destruct (Math_min rest); discriminate.
Qed.

Lemma Math_max_None (xs : list number) : Math_max xs = None -> xs = [].
Proof.
  destruct xs as [| x rest]; [reflexivity |].
  simpl. destruct (Math_max rest); discriminate.
Qed.

Lemma Math_min_lower (xs : list number) (m : number) :
  Math_min xs = Some m -> Forall (fun p => m <= p) xs.
Proof.
  revert m. induction xs as [| x rest IH]; intros m H; [constructor |].
  simpl in H. destruct (Math_min rest) as [m' |] eqn:E.
  - injection H as <-. constructor; [apply Q.le_min_l |].
    eapply Forall_impl; [| apply IH; reflexivity].
    intros p Hp. eapply Qle_trans; [apply Q.le_min_r | exact Hp].
  - injection H as <-. apply Math_min_None in E. subst rest.
    constructor; [apply Qle_refl | constructor].
Qed.

Lemma Math_max_upper (xs : list number) (m : number) :
  Math_max xs = Some m -> Forall (fun p => p <= m) xs.
Proof.
  revert m. induction xs as [| x rest IH]; intros m H; [constructor |].
  simpl in H. destruct (Math_max rest) as [m' |] eqn:E.
  - injection H as <-. constructor; [apply Q.le_max_l |].
    eapply Forall_impl; [| apply IH; reflexivity].
    intros p Hp. eapply Qle_trans; [exact Hp | apply Q.le_max_r].
  - injection H as <-. apply Math_max_None in E. subst rest.
    constructor; [apply Qle_refl | constructor].
Qed.

(** X21.  Every price drawn lies inside the domain of the price axis, and
    the axis has a domain in the number model exactly when there is a
    point to draw. *)
Theorem xDomain_contains_prices (d : ChartData) :
  (xDomain d = None <-> allPrices d = [])
  /\ forall lo hi : number,
       xDomain d = Some (lo, hi) ->
       Forall (fun p => lo <= p <= hi) (allPrices d).
Proof.
  unfold xDomain. split.
  - split; intro H.
    + destruct (Math_min (allPrices d)) eqn:E;
        [| apply Math_min_None, E].
      destruct (Math_max (allPrices d)) eqn:F;
        [discriminate H | apply Math_max_None, F].
    + rewrite H. reflexivity.
  - intros lo hi H.
    destruct (Math_min (allPrices d)) as [mn |] eqn:E; [| discriminate H].
    destruct (Math_max (allPrices d)) as [mx |] eqn:F; [| discriminate H].
    injection H as <- <-.
    pose proof (Math_min_lower _ _ E) as Hmin.
    pose proof (Math_max_upper _ _ F) as Hmax.
    rewrite Forall_forall in *. intros p Hp.
    specialize (Hmin p Hp). specialize (Hmax p Hp). simpl in *.
    split; nra.
Qed.

Lemma renders_paused (frozen : ChartData)
  (props : list (list Level * list Level)) :
  renders {| paused := true; frozenData := Some frozen |} props
  = (repeat frozen (length props),
     {| paused := true; frozenData := Some frozen |}).
Proof.
  induction props as [| [bidLevels askLevels] rest IH]; [reflexivity |].
  cbn [renders chartMemo paused frozenData]. rewrite IH. reflexivity.
Qed.

(** X22.  Pausing freezes the chart: after a live render and a click on
    Pause, every later render shows the data of that live render, whatever
    levels it is given, and leaves the paused state as it is. *)
Theorem pause_freezes_chart (st : ChartState)
  (bidLevels askLevels : list Level)
  (props : list (list Level * list Level)) :
  paused st = false ->
  fst (chartMemo st bidLevels askLevels)
  = {| bidData := buildSide bidLevels bid;
       askData := buildSide askLevels ask |}
  /\ renders (togglePause (snd (chartMemo st bidLevels askLevels))) props
     = (repeat (fst (chartMemo st bidLevels askLevels)) (length props),
        togglePause (snd (chartMemo st bidLevels askLevels))).
Proof.
  intro Hp. unfold chartMemo. rewrite Hp. simpl. split; [reflexivity |].
  unfold togglePause. simpl. apply renders_paused.
Qed.

Lemma pause_freezes_chart_witness :
  renders
    (togglePause (snd (chartMemo chartStart [levelAt 100 5] [levelAt 101 4])))
    [([levelAt 99 1], [levelAt 102 2]); ([], [])]
  = (repeat (fst (chartMemo chartStart [levelAt 100 5] [levelAt 101 4])) 2,
     togglePause (snd (chartMemo chartStart [levelAt 100 5] [levelAt 101 4]))).
Proof.
  apply (pause_freezes_chart chartStart [levelAt 100 5] [levelAt 101 4]
           [([levelAt 99 1], [levelAt 102 2]); ([], [])]).
  reflexivity.
Defined.

(** X23.  For a book whose sides are in side order, the live chart on the
    page draws the ten best levels of each side in the order of the book,
    with running totals starting at the best price: the sort inside
    [buildSide] then changes nothing. *)
Theorem page_chart_top_ten (b : Book) (st : ChartState) :
  paused st = false ->
  weaklySorted true (bids b) ->
  weaklySorted false (asks b) ->
  fst (chartMemo st (fst (chartProps b)) (snd (chartProps b)))
  = {| bidData := cumulate bid 0 (firstn 10 (bids b));
       askData := cumulate ask 0 (firstn 10 (asks b)) |}
  /\ (length (bidData (fst (chartMemo st (fst (chartProps b))
                              (snd (chartProps b))))) <= 10)%nat
  /\ (length (askData (fst (chartMemo st (fst (chartProps b))
                              (snd (chartProps b))))) <= 10)%nat.
Proof.
  intros Hp Hb Ha. unfold chartMemo, chartProps. rewrite Hp.
  cbn [fst snd bidData askData]. unfold buildSide.
  rewrite !sort_weaklySorted_id by (apply slice_to_sorted; assumption).
  split; [reflexivity |].
  rewrite !cumulate_length. split; apply firstn_le_length.
Qed.

Lemma page_chart_top_ten_witness :
  fst (chartMemo chartStart
         (fst (chartProps (book (run [(0, scenarioSnapshot)] initial))))
         (snd (chartProps (book (run [(0, scenarioSnapshot)] initial)))))
  = {| bidData := cumulate bid 0 [levelAt 100 5; levelAt 99 3];
       askData := cumulate ask 0 [levelAt 101 4; levelAt 102 2] |}.
Proof.
  apply (page_chart_top_ten (book (run [(0, scenarioSnapshot)] initial))
           chartStart).
  - reflexivity.
  - repeat constructor; unfold inOrder, price; simpl; unfold Qle; simpl; lia.
  - repeat constructor; unfold inOrder, price; simpl; unfold Qle; simpl; lia.
Defined.

(** X15.  Updates of opposite sides commute: a bid message and an ask
    message leave the same book in either order of arrival. *)
Theorem opposite_sides_commute (now1 now2 now3 now4 : number)
  (m1 m2 : IncrementalMsg) (st : State) :
  inc_is_bid m1 = negb (inc_is_bid m2) ->
  book (applyMessage now2 (Incremental m2)
          (applyMessage now1 (Incremental m1) st))
  = book (applyMessage now4 (Incremental m1)
            (applyMessage now3 (Incremental m2) st)).
Proof.
  intro H. rewrite !book_incremental.
  apply (book_ext _ _ (inc_is_bid m1)).
  - rewrite (applyIncremental_side m1).
    replace (inc_is_bid m1) with (negb (inc_is_bid m2)) at 1 by (symmetry; exact H).
    rewrite (applyIncremental_other m2), <- H.
    rewrite (applyIncremental_side m1).
    replace (side (inc_is_bid m1) (applyIncremental m2 (book st)))
      with (side (inc_is_bid m1) (book st)); [reflexivity |].
    rewrite H. symmetry. apply applyIncremental_other.
  - assert (H' : negb (inc_is_bid m1) = inc_is_bid m2)
      by (rewrite H; apply negb_involutive).
    rewrite H'.
    rewrite (applyIncremental_side m2).
    rewrite <- H' at 3. rewrite (applyIncremental_other m1), H'.
    rewrite (applyIncremental_side m2).
    replace (side (inc_is_bid m2) (applyIncremental m1 (book st)))
      with (side (inc_is_bid m2) (book st)); [reflexivity |].
    rewrite <- H'. symmetry. apply applyIncremental_other.
  - rewrite !applyIncremental_lastSeq. reflexivity.
Qed.

Lemma opposite_sides_commute_witness :
  book (applyMessage 2 (Incremental (incrementalOf false 0 (levelAt 101 9)))
          (applyMessage 1 (Incremental (incrementalOf true 1 (levelAt 100 0)))
             (run [(0, scenarioSnapshot)] initial)))
  = book (applyMessage 2 (Incremental (incrementalOf true 1 (levelAt 100 0)))
            (applyMessage 1
               (Incremental (incrementalOf false 0 (levelAt 101 9)))
               (run [(0, scenarioSnapshot)] initial))).
Proof.
  apply (opposite_sides_commute 1 2 1 2
           (incrementalOf true 1 (levelAt 100 0))
           (incrementalOf false 0 (levelAt 101 9))
           (run [(0, scenarioSnapshot)] initial)).
  reflexivity.
Defined.

Lemma xDomain_contains_prices_witness :
  exists lo hi : number,
    xDomain {| bidData := buildSide [levelAt 100 5; levelAt 99 3] bid;
               askData := buildSide [levelAt 101 4; levelAt 102 2] ask |}
    = Some (lo, hi)
    /\ Forall (fun p => lo <= p <= hi)
         (allPrices
            {| bidData := buildSide [levelAt 100 5; levelAt 99 3] bid;
               askData := buildSide [levelAt 101 4; levelAt 102 2] ask |}).
Proof.
  eexists. eexists. split.
  - vm_compute. reflexivity.
  - apply (proj2 (xDomain_contains_prices
                    {| bidData := buildSide [levelAt 100 5; levelAt 99 3] bid;
                       askData := buildSide [levelAt 101 4; levelAt 102 2] ask
                    |})).
    vm_compute. reflexivity.
Defined.
